(** * spiegel: change listeners (src/change-listeners.js)

    A shallow embedding of the [ChangeListeners] class: the claim protocol
    ([dirtyIfCleanOrLocked]), the batch engine ([_process]) and the retry
    scheduler ([_scheduleRetry]), with the theorems that relate them to the
    specification. *)

From Stdlib Require Import ZArith.
From stdpp Require Import base option list strings gmap pretty.

Local Open Scope string_scope.
Local Open Scope Z_scope.
Local Open Scope list_scope.

(** ** JavaScript values and documents *)

(** The values that occur in listener documents.  Numbers are the
    integer-valued ones (sequence counters, retry counts, millisecond
    timestamps), [JNum n] standing for the double nearest to [n]; [JNaN] is
    what arithmetic on [undefined] yields. *)
Inductive jsval :=
  | JUndefined
  | JNull
  | JBool (b : bool)
  | JNum (n : Z)
  | JNaN
  | JStr (s : string).

#[global] Instance jsval_eq_dec : EqDecision jsval.
Proof. solve_decision. Defined.

(** [!!v] *)
Definition truthy (v : jsval) : bool :=
  match v with
  | JUndefined | JNull | JNaN => false
  | JBool b => b
  | JNum n => negb (n =? 0)%Z
  | JStr s => negb (String.eqb s "")
  end.

(** The integer nearest to [z] among the values of a JS number: a double has
    53 significant bits, and a tie goes to the even significand. *)
Definition round53 (z : Z) : Z :=
  let a := Z.abs z in
  if (a <? 2 ^ 53)%Z then z
  else
    let e := (Z.log2 a - 52)%Z in
    let q := (a / 2 ^ e)%Z in
    let r := (a mod 2 ^ e)%Z in
    let half := (2 ^ (e - 1))%Z in
    let q := if (r <? half)%Z then q
             else if (half <? r)%Z then (q + 1)%Z
             else if Z.even q then q else (q + 1)%Z in
    (Z.sgn z * (q * 2 ^ e))%Z.

(** The decimal with the fewest significant digits that reads back as the
    double [a], and the nearest to [a] if there are two: the digits that
    [Number.prototype.toString] prints.  [n] is the number of digits of [a],
    [k] the number of significant digits tried, from 1 on. *)
Fixpoint shortest_decimal (fuel : nat) (k n a : Z) : Z :=
  match fuel with
  | O => a
  | S fuel' =>
      let u := (10 ^ (n - k))%Z in
      let lo := (a / u * u)%Z in
      let hi := (lo + u)%Z in
      let ok_lo := (round53 lo =? a)%Z in
      let ok_hi := (round53 hi =? a)%Z in
      if ok_lo && ok_hi then
        if (a - lo <? hi - a)%Z then lo
        else if (hi - a <? a - lo)%Z then hi
        else if Z.even (lo / u) then lo else hi
      else if ok_lo then lo
      else if ok_hi then hi
      else shortest_decimal fuel' (k + 1)%Z n a
  end.

(** A string of digits without its trailing zeros. *)
Fixpoint strip_zeros (s : string) : string :=
  match s with
  | EmptyString => EmptyString
  | String c rest =>
      match strip_zeros rest with
      | EmptyString =>
          if String.eqb (String c EmptyString) "0" then EmptyString
          else String c EmptyString
      | rest' => String c rest'
      end
  end.

(** [String(n)] of a number: its digits below 10^21, and from there on the
    exponent form. *)
Definition number_to_string (n : Z) : string :=
  let x := round53 n in
  if (x =? 0)%Z then "0"
  else
    let a := Z.abs x in
    let digits := String.length (pretty a) in
    let c := shortest_decimal digits 1 (Z.of_nat digits) a in
    let s := pretty c in
    let exponent := pretty (Z.of_nat (String.length s) - 1)%Z in
    let body :=
      if (c <? 10 ^ 21)%Z then s
      else
        match strip_zeros s with
        | EmptyString => s
        | String d EmptyString =>
            String d (String.append "e+" exponent)
        | String d ds =>
            String d (String.append "." (String.append ds (String.append "e+" exponent)))
        end in
    if (x <? 0)%Z then String.append "-" body else body.

(** [String(v)], the coercion applied by string concatenation and by the use
    of a value as a property key. *)
Definition js_to_string (v : jsval) : string :=
  match v with
  | JUndefined => "undefined"
  | JNull => "null"
  | JBool true => "true"
  | JBool false => "false"
  | JNum n => number_to_string n
  | JNaN => "NaN"
  | JStr s => s
  end.

(** [v + 1], a sum of doubles for a number *)
Definition js_plus_one (v : jsval) : jsval :=
  match v with
  | JNum n => JNum (round53 (n + 1))
  | JStr s => JStr (String.append s "1")
  | JBool b => JNum (Z.b2z b + 1)
  | JNull => JNum 1
  | JUndefined | JNaN => JNaN
  end.

(** A JSON document: a finite map from field names to values. *)
Abbreviation Doc := (gmap string jsval).

(** [d.k]: reading an absent field yields [undefined]. *)
Definition field (d : Doc) (k : string) : jsval := default JUndefined (d !! k).

(** The spiegel database: listener documents by [_id]. *)
Abbreviation Store := (gmap string (gmap string jsval)).

(** ** Errors *)

(** The classes [instanceof] distinguishes (./errors). *)
Inductive ErrClass := PlainError | ApiRequestError | DatabaseNotFoundError.

#[global] Instance ErrClass_eq_dec : EqDecision ErrClass.
Proof. solve_decision. Defined.

(** A thrown error object: its class, its [error] property (CouchDB puts the
    error name there, e.g. [not_found]) and its message. *)
Record Err := mkErr {
  err_class : ErrClass;
  err_error : jsval;
  err_message : string;
}.

#[global] Instance Err_eq_dec : EqDecision Err.
Proof. solve_decision. Defined.

(** [new DatabaseNotFoundError(dbName)] *)
Definition newDatabaseNotFoundError (dbName : jsval) : Err :=
  mkErr DatabaseNotFoundError JUndefined (js_to_string dbName).

(** [listeners[i]] read past the end of the array, then [.db_name]. *)
Definition TypeError : Err :=
  mkErr PlainError JUndefined "Cannot read properties of undefined".

(** The [RangeError] that [toISOString] throws on an invalid date. *)
Definition RangeError : Err :=
  mkErr PlainError JUndefined "Invalid time value".

(** ** Outbound operations and their join *)

(** A promise pushed to [requests] by the change dispatcher.  [settles] is the
    tick, counted from the moment the join starts, at which the promise
    settles (0 for one that has settled already); [rejection] is the error it
    rejects with, if it does. *)
Record Request := mkRequest {
  settles : nat;
  rejection : option Err;
}.

Inductive Joined :=
  | AllFulfilled (tick : nat)
  | FirstRejected (tick : nat) (e : Err).

(** The rejection [Promise.all] observes first: the rejected request with the
    least tick, the earliest in the array among equals. *)
Fixpoint first_rejection (rs : list Request) : option (nat * Err) :=
  match rs with
  | [] => None
  | r :: rs' =>
      match rejection r, first_rejection rs' with
      | None, o => o
      | Some e, None => Some (settles r, e)
      | Some e, Some (t', e') =>
          if (settles r <=? t')%nat then Some (settles r, e) else Some (t', e')
      end
  end.

(** [Promise.all(requests)]: fulfilled once every request is, rejected as soon
    as one request rejects. *)
Definition Promise_all (rs : list Request) : Joined :=
  match first_rejection rs with
  | Some (t, e) => FirstRejected t e
  | None => AllFulfilled (foldr Nat.max 0%nat (settles <$> rs))
  end.

(** ** The change feed and the change dispatcher *)

Record Change := mkChange {
  change_seq : string;
  change_id : string;
}.

#[global] Instance Change_eq_dec : EqDecision Change.
Proof. solve_decision. Defined.

(** One page of [_changes]: [{results, last_seq, pending}]. *)
Record Page := mkPage {
  results : list Change;
  last_seq : jsval;
  pending : jsval;
}.

(** What one call of [ChangeProcessor.process(change, dbName, requests)] does:
    the promises it pushes to [requests] and, when the promise it returns
    rejects, the error. *)
Record Dispatch := mkDispatch {
  pushed : list Request;
  failure : option Err;
}.

(** What can be observed of a batch from outside. *)
Inductive Event :=
  | EvDispatch (c : Change) (dbName : jsval)
  | EvHandedOff (c : Change)
  | EvJoin (requests : list Request)
  | EvResume (tick : nat).

(** ** Dates *)

(** What the backoff policy returns as a delay in seconds. Its multiplier is
    read with [parseFloat], so the delay is any JS number: a whole number of
    seconds, [NaN], an infinity, or a fraction; for a fraction [ms t] is the
    integral part of [t + delay * 1000] as the double arithmetic yields it. *)
Inductive Delay :=
  | WholeSecs (n : Z)
  | NotANumber
  | Infinite
  | Fractional (ms : Z → Z).

(** The largest time value of a [Date], in milliseconds from the epoch. *)
Definition maxTime : Z := 8640000000000000.

(** [new Date(v)] keeps the time value [v] if it is within [maxTime] of the
    epoch and is an invalid date otherwise. *)
Definition TimeClip (v : Z) : option Z :=
  if (Z.abs v <=? maxTime)%Z then Some v else None.

(** The time value of [new Date(t + delay * 1000)], [None] for an invalid
    date. *)
Definition date_after (t : Z) (delay : Delay) : option Z :=
  match delay with
  | WholeSecs n => TimeClip (round53 (t + round53 (round53 n * 1000)))
  | NotANumber | Infinite => None
  | Fractional ms => TimeClip (ms t)
  end.

(** ** Collaborators *)

(** Everything the class receives from outside: configuration, language
    built-ins, the change feed, the change processor, the backoff policy and
    the other processes writing to the spiegel database. *)
Record Collab := mkCollab {
  (** [this._batchSize] *)
  batchSize : Z;
  (** [new Date(ms).toISOString()] of a valid date *)
  toISOString : Z → string;
  toISOString_nonempty : ∀ ms, toISOString ms ≠ "";
  (** [decodeURIComponent(s)], which throws on a malformed escape *)
  decodeURIComponent : string → Err + string;
  (** [this._slouch.db.changesArray(dbName, {since, include_docs, limit})] *)
  changesArray : jsval → jsval → Z → Err + Page;
  (** [this._changeProcessor.process(change, dbName, requests)] *)
  process : Change → jsval → Dispatch;
  (** [this._backoff.hasReachedRetryLimit(retries) === true] *)
  hasReachedRetryLimit : jsval → bool;
  (** [this._backoff.getDelaySecs(retries)] *)
  getDelaySecs : jsval → Delay;
  (** what other processes write to the spiegel database while the batch is
      waiting for its outbound operations *)
  during_batch : Store → Store;
  (** the edits other processes make to a listener between the read and the
      write of successive attempts of one merge-upsert *)
  upsert_races : list (gmap string jsval → gmap string jsval);
}.

(** ** State and control *)

Record World := mkWorld {
  (** [new Date().getTime()] *)
  now : Z;
  store : Store;
  (** errors handed to [_onError], oldest first *)
  reported : list Err;
  (** times handed to [_queueSoiler], oldest first *)
  soiled : list string;
  observed : list Event;
}.

Inductive Outcome (A : Type) :=
  | Return (a : A)
  | Throw (e : Err).
Arguments Return {A} a.
Arguments Throw {A} e.

(** The value an outcome returns, if it does. *)
Definition returned {A} (o : Outcome A) : option A :=
  match o with
  | Return a => Some a
  | Throw _ => None
  end.

(** An async method: it runs on the world and either returns or throws. *)
Definition M (A : Type) : Type := World → Outcome A * World.

Definition ret {A} (a : A) : M A := λ w, (Return a, w).
Definition throw {A} (e : Err) : M A := λ w, (Throw e, w).
Definition bind {A B} (m : M A) (k : A → M B) : M B :=
  λ w, match m w with
       | (Return a, w') => k a w'
       | (Throw e, w') => (Throw e, w')
       end.
(** [try { m } catch (err) { h err }] *)
Definition try_catch {A} (m : M A) (h : Err → M A) : M A :=
  λ w, match m w with
       | (Return a, w') => (Return a, w')
       | (Throw e, w') => h e w'
       end.
Definition get_world : M World := λ w, (Return w, w).
Definition modify (f : World → World) : M unit := λ w, (Return tt, f w).

Notation "'let!' x ':=' m 'in' k" := (bind m (λ x, k))
  (at level 10, x name, m at level 100, k at level 200, only parsing).

Definition with_store (f : Store → Store) (w : World) : World :=
  mkWorld (now w) (f (store w)) (reported w) (soiled w) (observed w).
Definition observe (es : list Event) (w : World) : World :=
  mkWorld (now w) (store w) (reported w) (soiled w) (observed w ++ es).
Definition with_reported (f : list Err → list Err) (w : World) : World :=
  mkWorld (now w) (store w) (f (reported w)) (soiled w) (observed w).
Definition with_soiled (f : list string → list string) (w : World) : World :=
  mkWorld (now w) (store w) (reported w) (f (soiled w)) (observed w).

(** ** The listener store adapter *)

(** The outcome the store reports for one document of a bulk write. *)
Inductive BulkItem :=
  | ItemOk (id : string) (rev : jsval)
  | ItemError (id : string) (error : string).

(** [this._slouch.doc.isConflictError(doc)]: [doc.error === 'conflict'] *)
Definition isConflictError (item : BulkItem) : bool :=
  match item with
  | ItemOk _ _ => false
  | ItemError _ error => String.eqb error "conflict"
  end.

(** The revision the store holds for an id; [undefined] when there is no
    document. *)
Definition stored_rev (st : Store) (id : string) : jsval :=
  from_option (λ cur, field cur "_rev") JUndefined (st !! id).

Definition next_rev (rev : jsval) : jsval :=
  match rev with
  | JNum n => JNum (n + 1)
  | _ => JNum 1
  end.

(** Modelled from the spec: the store's optimistic-concurrency write, which
    the adapter's operations rest on; the store is not part of this
    repository.  A write is accepted when the document carries the revision
    the store holds for its id (none for a new document) and gives the
    document its next revision; otherwise it is rejected with a conflict and
    the store is left as it was. *)
Definition put (d : Doc) (st : Store) : BulkItem * Store :=
  let id := js_to_string (field d "_id") in
  if decide (field d "_rev" = stored_rev st id)
  then let rev := next_rev (stored_rev st id) in
       (ItemOk id rev, <[id := <["_rev" := rev]> d]> st)
  else (ItemError id "conflict", st).

(** Modelled from the spec: [bulkUpsert(collectionId, docs) → [result...]],
    the per-document success or conflict outcome, in input order. *)
Fixpoint bulkCreateOrUpdate (docs : list Doc) (st : Store)
  : list BulkItem * Store :=
  match docs with
  | [] => ([], st)
  | d :: docs' =>
      let '(item, st1) := put d st in
      let '(items, st2) := bulkCreateOrUpdate docs' st1 in
      (item :: items, st2)
  end.

(** The map function of the view [change_listeners_by_db_name] (lines 52-56):
    a document of type [change_listener] is emitted under its [db_name]. *)
Definition emitted_under (key : string) (d : Doc) : bool :=
  bool_decide (field d "type" = JStr "change_listener")
  && bool_decide (field d "db_name" = JStr key).

(** Modelled from the spec: [queryByKeys(collectionId, indexName, keys)], the
    documents the view emits under each key, key after key. *)
Definition viewArray (keys : list string) (st : Store) : list Doc :=
  k ← keys; filter (λ d, emitted_under k d = true) (map_to_list st).*2.

(** Another process editing the record [id]: it writes [edit] of the document
    it finds, under the revision it found. *)
Definition race_write (id : string) (st : Store) (edit : Doc → Doc) : Store :=
  from_option (λ cur, (put (edit cur) st).2) st (st !! id).

(** Modelled from the spec: [mergeUpsert(collectionId, partialDoc)], which
    applies a partial field update and is retried internally against revision
    conflicts by the adapter.  Each attempt reads the stored document, lays
    the partial document over it and writes the result; [races] are the edits
    other processes get in between the read and the write of successive
    attempts. *)
Fixpoint getMergeUpsert (races : list (Doc → Doc)) (partial : Doc) (st : Store)
  : Store :=
  let id := js_to_string (field partial "_id") in
  let merged := partial ∪ default ∅ (st !! id) in
  match races with
  | [] => (put merged st).2
  | edit :: races' =>
      let st1 := race_write id st edit in
      match put merged st1 with
      | (ItemOk _ _, st2) => st2
      | (ItemError _ _, _) => getMergeUpsert races' partial st1
      end
  end.

(** ** The scheduling collaborator (the [Process] base class) *)

(** Modelled from the spec: [touchUpdatedAt(doc)], which stamps the document
    with the current time. *)
Definition _setUpdatedAt (E : Collab) (t : Z) (d : Doc) : Doc :=
  <["updated_at" := JStr (toISOString E t)]> d.

(** Modelled from the spec: [setDirtyAt(doc, timestamp)]. *)
Definition _setDirtyAt (item : Doc) (t : string) : Doc :=
  <["dirty_at" := JStr t]> item.

(** Modelled from the spec: at the retry limit the scheduler is to "clear
    [retries] to 0 and leave the record dirty with no [dirty_at]". *)
Definition _clearRetries (item : Doc) : Doc :=
  delete "dirty_at" (<["retries" := JNum 0]> item).

(** Modelled from the spec: [persist(doc, retryOnConflict)] with
    [retryOnConflict = true]: the item is written over the stored record,
    whatever revision the store holds by then. *)
Definition _updateItem (item : Doc) : M unit :=
  modify (with_store (λ st,
    (put (<["_rev" := stored_rev st (js_to_string (field item "_id"))]> item) st).2)).

(** Modelled from the spec: [notifyWakeupAt(timestamp)]. *)
Definition _queueSoiler (t : string) : M unit :=
  modify (with_soiled (λ ts, ts ++ [t])).

(** Modelled from the spec: [reportError(err)]. *)
Definition _onError (err : Err) : M unit :=
  modify (with_reported (λ es, es ++ [err])).

(** ** Objects used as sets of names *)

(** [missing] and [conflictedDBNames] are objects whose values are never
    read: only their keys matter.  They are keyed by the names of databases,
    and for such names an assignment adds the key if it is new and
    [sporks.each] and [Object.keys] enumerate the keys in the order in which
    they were added, which is how the keys are kept here.  That is so for
    every string but the two kinds an object treats apart: a string that
    reads as an array index, which is enumerated ahead of the others, and
    [__proto__], whose assignment adds no key.  Neither is the name of a
    database, which starts with a lowercase letter or, for a system database
    such as [_users], with one underscore. *)

(** The strings an object keeps in insertion order: those that do not start
    with a digit and are not [__proto__]. *)
Definition plain_name (s : string) : bool :=
  match s with
  | EmptyString => true
  | String c _ =>
      negb ((48 <=? Ascii.nat_of_ascii c)%nat && (Ascii.nat_of_ascii c <=? 57)%nat)
      && negb (String.eqb s "__proto__")
  end.

(** [obj[k] = ...] *)
Definition obj_set (k : string) (keys : list string) : list string :=
  if decide (k ∈ keys) then keys else keys ++ [k].

(** [delete obj[k]] *)
Definition obj_delete (k : string) (keys : list string) : list string :=
  filter (λ k', k' ≠ k) keys.

(** [sporks.flip(dbNames)]: an object with one key per name. *)
Definition flip (dbNames : list string) : list string :=
  foldl (λ keys k, obj_set k keys) [] dbNames.

(** ** The claim protocol *)

Section ClaimProtocol.
Context (E : Collab).

Definition _idPrefix : string := "spiegel_cl_".

(** [this._idPrefix + dbName] *)
Definition _toId (dbName : jsval) : jsval :=
  JStr (String.append _idPrefix (js_to_string dbName)).

Definition _getByDBNames (dbNames : list string) : M (list Doc) :=
  let! w := get_world in
  ret (viewArray dbNames (store w)).

(** [!listener.dirty || listener.locked_at] *)
Definition cleanOrLocked (listener : Doc) : bool :=
  negb (truthy (field listener "dirty")) || truthy (field listener "locked_at").

(** The body of [listeners.map] in [_getCleanLockedOrMissing], on the pair
    of [missing] and [lists]. *)
Definition sift (acc : list string * list Doc) (listener : Doc)
  : list string * list Doc :=
  let missing := obj_delete (js_to_string (field listener "db_name")) acc.1 in
  if cleanOrLocked listener then (missing, acc.2 ++ [listener])
  else (missing, acc.2).

(** [_getCleanLockedOrMissing] once the listeners have been fetched. *)
Definition cleanLockedOrMissing (dbNames : list string) (listeners : list Doc)
  : list Doc :=
  let '(missing, lists) := foldl sift (flip dbNames, []) listeners in
  lists ++ ((λ dbName, {[ "db_name" := JStr dbName ]}) <$> missing).

Definition _getCleanLockedOrMissing (dbNames : list string) : M (list Doc) :=
  let! listeners := _getByDBNames dbNames in
  ret (cleanLockedOrMissing dbNames listeners).

(** The body of [listeners.forEach] in [_dirtyOrCreate], at time [t]. *)
Definition dirtyOrCreate_one (t : Z) (listener : Doc) : Doc :=
  if truthy (field listener "_id") then
    _setUpdatedAt E t (<["dirty" := JBool true]> listener)
  else
    _setUpdatedAt E t
      (<["dirty" := JBool true]>
         (<["type" := JStr "change_listener"]>
            (<["_id" := _toId (field listener "db_name")]> listener))).

(** Returns the listeners as the loop leaves them, with the store's
    response. *)
Definition _dirtyOrCreate (listeners : list Doc)
  : M (list Doc * list BulkItem) :=
  λ w,
    let listeners' := dirtyOrCreate_one (now w) <$> listeners in
    let '(response, st) := bulkCreateOrUpdate listeners' (store w) in
    (Return (listeners', response), with_store (λ _, st) w).

(** [response.forEach((doc, i) => ...)] from index [i] on. *)
Fixpoint collect_conflicts (listeners : list Doc) (i : nat)
    (response : list BulkItem) (conflictedDBNames : list string)
  : Outcome (list string) :=
  match response with
  | [] => Return conflictedDBNames
  | doc :: response' =>
      if isConflictError doc then
        match listeners !! i with
        | Some listener =>
            collect_conflicts listeners (S i) response'
              (obj_set (js_to_string (field listener "db_name"))
                 conflictedDBNames)
        | None => Throw TypeError
        end
      else collect_conflicts listeners (S i) response' conflictedDBNames
  end.

Definition _dirtyAndGetConflictedDBNames (listeners : list Doc)
  : M (list string) :=
  let! written := _dirtyOrCreate listeners in
  λ w, (collect_conflicts written.1 0 written.2 [], w).

(** [race] is what other processes write between the read and the bulk
    write of this attempt.  [None] is [undefined]. *)
Definition _attemptToDirtyIfCleanOrLocked (race : Store → Store)
    (dbNames : list string) : M (option (list string)) :=
  let! listeners := _getCleanLockedOrMissing dbNames in
  let! _ := modify (with_store race) in
  if bool_decide (0 < length listeners)%nat then
    let! names := _dirtyAndGetConflictedDBNames listeners in
    ret (Some names)
  else ret None.

(** The recursion of [dirtyIfCleanOrLocked], [fuel] levels deep.  [races]
    gives the writes of other processes for each attempt in turn (none once
    it is used up).  [Return None] says that [fuel] ran out. *)
Fixpoint dirtyIfCleanOrLocked (fuel : nat) (races : list (Store → Store))
    (dbNames : list string) : M (option unit) :=
  match fuel with
  | O => ret None
  | S fuel' =>
      let! conflictedDBNames :=
        _attemptToDirtyIfCleanOrLocked (hd id races) dbNames in
      match conflictedDBNames with
      | Some (name :: names) =>
          dirtyIfCleanOrLocked fuel' (tl races) (name :: names)
      | _ => ret (Some tt)
      end
  end.

End ClaimProtocol.

(** ** The retry scheduler and the batch engine *)

Section BatchEngine.
Context (E : Collab).

(** The partial document [{ _id: id, last_seq: lastSeq }]. *)
Definition lastSeqDoc (id lastSeq : jsval) : Doc :=
  {[ "_id" := id; "last_seq" := lastSeq ]}.

Definition _updateLastSeq (id lastSeq : jsval) : M unit :=
  modify (with_store (getMergeUpsert (upsert_races E) (lastSeqDoc id lastSeq))).

(** [listener.last_seq || undefined] *)
Definition since (listener : Doc) : jsval :=
  if truthy (field listener "last_seq") then field listener "last_seq"
  else JUndefined.

Definition _changesForListener (listener : Doc) : M Page :=
  match changesArray E (field listener "db_name") (since listener) (batchSize E) with
  | inr changes => ret changes
  | inl err =>
      if decide (err_error err = JStr "not_found")
      then throw (newDatabaseNotFoundError (field listener "db_name"))
      else throw err
  end.

(** [item.retries ? item.retries : 0] *)
Definition retries_of (item : Doc) : jsval :=
  if truthy (field item "retries") then field item "retries" else JNum 0.

(** [new Date(new Date().getTime() + getDelaySecs(retries) * 1000).toISOString()],
    which throws a [RangeError] on an invalid date. *)
Definition dirtyTime_at (t : Z) (retries : jsval) : Err + string :=
  match date_after t (getDelaySecs E retries) with
  | Some v => inr (toISOString E v)
  | None => inl RangeError
  end.

(** Returns the item as the method leaves it. *)
Definition _scheduleRetry (item : Doc) : M Doc :=
  let retries := retries_of item in
  if hasReachedRetryLimit E retries then ret (_clearRetries item)
  else
    let! w := get_world in
    match dirtyTime_at (now w) retries with
    | inl err => throw err
    | inr dirtyTime =>
        let item := _setDirtyAt item dirtyTime in
        let item := <["retries" := js_plus_one retries]> item in
        let! _ := _updateItem item in
        let! _ := _queueSoiler dirtyTime in
        ret item
    end.

(** Returns the listener as the method leaves it. *)
Definition _waitForRequests (requests : list Request) (listener : Doc)
  : M Doc :=
  let! _ := modify (observe [EvJoin requests]) in
  let! _ := modify (with_store (during_batch E)) in
  match Promise_all requests with
  | AllFulfilled tick =>
      let! _ := modify (observe [EvResume tick]) in
      ret listener
  | FirstRejected tick err =>
      let! _ := modify (observe [EvResume tick]) in
      let! _ := _onError err in
      if decide (err_class err = ApiRequestError)
      then _scheduleRetry listener
      else throw err
  end.

(** The promise chain built by [changes.results.forEach]: each change is
    handed to the change processor once the promise of the one before it
    has resolved; a rejection skips the rest. *)
Fixpoint chain (dbName : jsval) (changes : list Change)
    (requests : list Request) : M (list Request) :=
  match changes with
  | [] => ret requests
  | change :: changes' =>
      let! _ := modify (observe [EvDispatch change dbName]) in
      let dispatch := process E change dbName in
      match failure dispatch with
      | Some err => throw err
      | None =>
          let! _ := modify (observe [EvHandedOff change]) in
          chain dbName changes' (requests ++ pushed dispatch)
      end
  end.

Definition _processChanges (listener : Doc) (changes : Page) : M Doc :=
  let! requests := chain (field listener "db_name") (results changes) [] in
  _waitForRequests requests listener.

(** [!!changes.pending] *)
Definition _moreBatches (changes : Page) : bool := truthy (pending changes).

(** Returns the listener as the method leaves it, and the method's value. *)
Definition _processBatchOfChanges (listener : Doc) : M (Doc * bool) :=
  let! changes := _changesForListener listener in
  let! listener := _processChanges listener changes in
  let! _ :=
    (if negb (truthy (field listener "dirty_at"))
     then _updateLastSeq (field listener "_id") (last_seq changes)
     else ret tt) in
  ret (listener, _moreBatches changes).

(** The value of the [try] block is dropped: when it completes the method
    runs off its end and yields [undefined]. *)
Definition _processBatchOfChangesLogError (listener : Doc) : M jsval :=
  try_catch
    (let! _ := _processBatchOfChanges listener in ret JUndefined)
    (λ err,
       if decide (err_class err = DatabaseNotFoundError) then throw err
       else
         let! _ := _onError err in
         ret (JBool true)).

Definition _process (listener : Doc) : M jsval :=
  if truthy (field listener "db_name") then
    match decodeURIComponent E (js_to_string (field listener "db_name")) with
    | inr dbName =>
        _processBatchOfChangesLogError (<["db_name" := JStr dbName]> listener)
    | inl err => throw err
    end
  else _processBatchOfChangesLogError listener.

End BatchEngine.

(** ** Notions used to state the properties *)

(** The name a listener is filed under: its [db_name] as a property key. *)
Definition db_key (listener : Doc) : string :=
  js_to_string (field listener "db_name").

(** The document pushed for a name without a record. *)
Definition missing_doc (dbName : string) : Doc := {[ "db_name" := JStr dbName ]}.

(** The names [missing] holds once every fetched listener has been struck
    off. *)
Definition still_missing (keys : list string) (listeners : list Doc)
  : list string :=
  foldl (λ keys listener, obj_delete (db_key listener) keys) keys listeners.


(** The page the feed serves for a listener, or the error it fails with. *)
Definition fetched (E : Collab) (listener : Doc) : Err + Page :=
  changesArray E (field listener "db_name") (since listener) (batchSize E).

(** What the change dispatcher shows when it is handed [changes] one after
    the other, each dispatch handing off before the next starts. *)
Definition dispatch_trace (dbName : jsval) (changes : list Change) : list Event :=
  change ← changes; [EvDispatch change dbName; EvHandedOff change].

(** The requests the dispatches of [changes] push, in order. *)
Definition pushed_by (E : Collab) (dbName : jsval) (changes : list Change)
  : list Request :=
  change ← changes; pushed (process E change dbName).

Definition dispatches_succeed (E : Collab) (dbName : jsval)
    (changes : list Change) : Prop :=
  ∀ change, change ∈ changes → failure (process E change dbName) = None.

(** The world once the join of [requests] has resumed at [tick]. *)
Definition joined (E : Collab) (requests : list Request) (tick : nat)
    (w : World) : World :=
  observe [EvResume tick]
    (with_store (during_batch E) (observe [EvJoin requests] w)).

(** The [last_seq] of the stored record [key]. *)
Definition stored_last_seq (w : World) (key : string) : jsval :=
  from_option (λ d, field d "last_seq") JUndefined (store w !! key).

(** ** Sample collaborators and records *)

Module Sample.

(** A stand-in for the ISO rendering of a time. *)
Definition toISOString (ms : Z) : string := String.append "T" (pretty ms).

Definition toISOString_nonempty (ms : Z) : toISOString ms ≠ "" :=
  ltac:(discriminate).

Definition apiError : Err := mkErr ApiRequestError JUndefined "502".
Definition socketError : Err := mkErr PlainError JUndefined "ECONNRESET".
Definition notFound : Err := mkErr PlainError (JStr "not_found") "missing".

Definition c1 : Change := mkChange "1" "doc1".
Definition c2 : Change := mkChange "2" "doc2".
Definition c3 : Change := mkChange "3" "doc3".

(** A page of three changes with more to come. *)
Definition page : Page := mkPage [c1; c2; c3] (JStr "3") (JBool true).

(** A linear backoff of five seconds with a limit of [limit] retries. *)
Definition reached (limit : Z) (retries : jsval) : bool :=
  match retries with
  | JNum n => bool_decide (limit ≤ n)
  | _ => false
  end.

(** Collaborators whose feed serves [page], whose dispatcher behaves as
    [dispatch] says and whose backoff allows [limit] retries, with [others]
    writing to the store during the batch. *)
Definition collab (dispatch : Change → Dispatch) (limit : Z)
    (others : Store → Store) : Collab :=
  mkCollab 100 toISOString toISOString_nonempty inr
    (λ _ _ _, inr page) (λ change _, dispatch change)
    (reached limit) (λ _, WholeSecs 5) others [].

(** Collaborators whose feed fails with [err]. *)
Definition feed_fails (err : Err) : Collab :=
  mkCollab 100 toISOString toISOString_nonempty inr
    (λ _ _ _, inl err) (λ _ _, mkDispatch [] None)
    (reached 0) (λ _, WholeSecs 5) id [].

(** Every dispatch pushes one request that succeeds after a tick. *)
Definition all_succeed (change : Change) : Dispatch :=
  mkDispatch [mkRequest 1 None] None.

(** The request of the second change fails after a tick with an API error,
    those of the others succeed after nine. *)
Definition second_request_fails (change : Change) : Dispatch :=
  if decide (change = c2) then mkDispatch [mkRequest 1 (Some apiError)] None
  else mkDispatch [mkRequest 9 None] None.

(** The dispatch of the second change itself fails. *)
Definition second_dispatch_fails (change : Change) : Dispatch :=
  if decide (change = c2) then mkDispatch [] (Some socketError)
  else mkDispatch [mkRequest 1 None] None.

(** The listener of database [a]: dirty, locked by the worker that runs the
    batch, at sequence 1, after [retries] failed attempts. *)
Definition listener (retries : Z) : Doc :=
  {[ "_id" := JStr "spiegel_cl_a"; "_rev" := JNum 4;
     "type" := JStr "change_listener"; "db_name" := JStr "a";
     "dirty" := JBool true; "locked_at" := JStr "T900";
     "last_seq" := JStr "1"; "retries" := JNum retries ]}.

(** The same listener clean: locked, not dirty. *)
Definition locked_clean : Doc := <["dirty" := JBool false]> (listener 0).

(** Another process setting the dirty flag of the record it reads. *)
Definition redirty (d : Doc) : Doc := <["dirty" := JBool true]> d.

Definition world (record : Doc) : World :=
  mkWorld 1000 {[ "spiegel_cl_a" := record ]} [] [] [].

(** Another process claiming database [a] through the claim protocol. *)
Definition claim_a (st : Store) : Store :=
  store (dirtyIfCleanOrLocked (collab all_succeed 0 id) 8 [] ["a"]
           (mkWorld 1001 st [] [] [])).2.

End Sample.

(** ** Further notions and samples *)

(** The record a document is written to: its [_id] as a key of the store. *)
Definition target (d : Doc) : string := js_to_string (field d "_id").

(** [k] failures in a row handed to the retry scheduler, each on the item as
    the one before left it. *)
Fixpoint retry_times (E : Collab) (k : nat) (item : Doc) : M Doc :=
  match k with
  | O => ret item
  | S k' =>
      let! item := _scheduleRetry E item in
      retry_times E k' item
  end.

(** A store as the document database keeps it: every document is filed under
    its own [_id] and has a revision, and the listener of a database is the
    document, if any, whose id is [spiegel_cl_] followed by the name. *)
Record listener_store (st : Store) : Prop := {
  filed_under_id : ∀ key d, st !! key = Some d → field d "_id" = JStr key;
  has_revision : ∀ key d, st !! key = Some d → field d "_rev" ≠ JUndefined;
  listener_id : ∀ key d n,
    st !! key = Some d → emitted_under n d = true →
    key = String.append _idPrefix n;
  id_listener : ∀ n d,
    st !! String.append _idPrefix n = Some d → emitted_under n d = true;
}.

(** The fields the claim protocol may change in a record. *)
Definition claim_field (f : string) : Prop :=
  f = "dirty" ∨ f = "updated_at" ∨ f = "_rev".

(** [st'] is [st] after a claim for [dbNames]: still a store of listeners;
    every requested name has its listener, dirty; every record that was there
    is there, changed at most in the fields the claim protocol may change and
    dirty if it was; and the records that are new are the listeners of
    requested names. *)
Record claimed (dbNames : list string) (st st' : Store) : Prop := {
  claimed_store : listener_store st';
  claimed_dirty : ∀ n, n ∈ dbNames →
    ∃ d, st' !! String.append _idPrefix n = Some d
         ∧ truthy (field d "dirty") = true ∧ emitted_under n d = true;
  claimed_frame : ∀ key d, st !! key = Some d →
    ∃ d', st' !! key = Some d'
          ∧ (∀ f, ¬ claim_field f → d' !! f = d !! f)
          ∧ (truthy (field d "dirty") = true → truthy (field d' "dirty") = true);
  claimed_new : ∀ key, is_Some (st' !! key) →
    is_Some (st !! key) ∨ ∃ n, n ∈ dbNames ∧ key = String.append _idPrefix n;
}.

(** A writer that leaves a store of listeners a store of listeners. *)
Definition keeps_listener_store (race : Store → Store) : Prop :=
  ∀ st, listener_store st → listener_store (race st).

(** Another process rewriting the listener of [n] as it finds it, which gives
    the record a new revision. *)
Definition rewrite_listener (n : string) (st : Store) : Store :=
  race_write (String.append _idPrefix n) st id.

Module Sample2.

(** Collaborators that cannot decode the name of the database. *)
Definition uriError : Err := mkErr PlainError JUndefined "URI malformed".

Definition undecodable : Collab :=
  mkCollab 100 Sample.toISOString Sample.toISOString_nonempty
    (λ _, inl uriError)
    (λ _ _ _, inr Sample.page) (λ change _, Sample.all_succeed change)
    (Sample.reached 3) (λ _, WholeSecs 5) id [].

(** Collaborators whose feed serves an empty page at cursor 7. *)
Definition idle : Collab :=
  mkCollab 100 Sample.toISOString Sample.toISOString_nonempty inr
    (λ _ _ _, inr (mkPage [] (JStr "7") (JBool false)))
    (λ change _, Sample.all_succeed change)
    (Sample.reached 3) (λ _, WholeSecs 5) id [].

(** A store with the listener of [a], clean and unlocked, and a document of
    another kind. *)
Definition clean_a : Doc :=
  {[ "_id" := JStr "spiegel_cl_a"; "_rev" := JNum 1;
     "type" := JStr "change_listener"; "db_name" := JStr "a";
     "last_seq" := JStr "5" ]}.

Definition design : Doc :=
  {[ "_id" := JStr "_design/change_listeners_by_db_name"; "_rev" := JNum 1 ]}.

Definition shelf : Store :=
  {[ "spiegel_cl_a" := clean_a;
     "_design/change_listeners_by_db_name" := design ]}.

(** A backoff policy whose multiplier did not parse as a number: every delay
    is [NaN]. *)
Definition unparsed : Collab :=
  mkCollab 100 Sample.toISOString Sample.toISOString_nonempty inr
    (λ _ _ _, inr Sample.page)
    (λ change _, Sample.second_request_fails change)
    (Sample.reached 3) (λ _, NotANumber) id [].

(** A change processor that finds the database of the second change gone. *)
Definition gone : Err := newDatabaseNotFoundError (JStr "b").

Definition second_dispatch_finds_no_database (change : Change) : Dispatch :=
  if decide (change = Sample.c2) then mkDispatch [] (Some gone)
  else mkDispatch [mkRequest 1 None] None.

(** The listener of [a], already dirty and not locked, and a store that holds
    it. *)
Definition queued_a : Doc :=
  {[ "_id" := JStr "spiegel_cl_a"; "_rev" := JNum 2;
     "type" := JStr "change_listener"; "db_name" := JStr "a";
     "dirty" := JBool true; "last_seq" := JStr "5" ]}.

Definition queue : Store := {[ "spiegel_cl_a" := queued_a ]}.

(** The listeners of [b], dirty and not locked, and of [c], dirty and locked,
    and a store that holds them next to the clean listener of [a]. *)
Definition queued_b : Doc :=
  {[ "_id" := JStr "spiegel_cl_b"; "_rev" := JNum 2;
     "type" := JStr "change_listener"; "db_name" := JStr "b";
     "dirty" := JBool true ]}.

Definition locked_c : Doc :=
  {[ "_id" := JStr "spiegel_cl_c"; "_rev" := JNum 3;
     "type" := JStr "change_listener"; "db_name" := JStr "c";
     "dirty" := JBool true; "locked_at" := JStr "T900" ]}.

Definition board : Store :=
  <["spiegel_cl_c" := locked_c]> (<["spiegel_cl_b" := queued_b]> shelf).

End Sample2.

(** * Properties *)

(** ** Objects used as sets of names *)

Lemma elem_of_obj_set k n keys : n ∈ obj_set k keys ↔ n = k ∨ n ∈ keys.
Proof.
  unfold obj_set. case_decide as Hk.
  - split; [by right | by intros [-> | ?]].
  - rewrite elem_of_app, list_elem_of_singleton. tauto.
Qed.

Lemma NoDup_obj_set k keys : NoDup keys → NoDup (obj_set k keys).
Proof.
  intros Hnd. unfold obj_set. case_decide as Hk; [done |].
  apply NoDup_app. split_and!; [done | | apply NoDup_singleton].
  intros x Hx ->%list_elem_of_singleton. done.
Qed.

Lemma elem_of_obj_delete k n keys : n ∈ obj_delete k keys ↔ n ≠ k ∧ n ∈ keys.
Proof. unfold obj_delete. by rewrite list_elem_of_filter. Qed.

Lemma NoDup_obj_delete k keys : NoDup keys → NoDup (obj_delete k keys).
Proof. apply NoDup_filter. Qed.

Lemma flip_spec_from dbNames keys :
  NoDup keys →
  NoDup (foldl (λ keys k, obj_set k keys) keys dbNames)
  ∧ ∀ n, n ∈ foldl (λ keys k, obj_set k keys) keys dbNames
         ↔ n ∈ keys ∨ n ∈ dbNames.
Proof.
  revert keys. induction dbNames as [| k dbNames IH]; intros keys Hnd; simpl.
  - split; [done |]. intros n. rewrite elem_of_nil. tauto.
  - destruct (IH (obj_set k keys) (NoDup_obj_set k keys Hnd)) as [Hnd' Hin].
    split; [done |]. intros n.
    rewrite Hin, elem_of_obj_set, elem_of_cons. tauto.
Qed.

Lemma NoDup_flip dbNames : NoDup (flip dbNames).
Proof. apply flip_spec_from, NoDup_nil_2. Qed.

Lemma elem_of_flip n dbNames : n ∈ flip dbNames ↔ n ∈ dbNames.
Proof.
  unfold flip. destruct (flip_spec_from dbNames [] (NoDup_nil_2)) as [_ ->].
  rewrite elem_of_nil. tauto.
Qed.

(** ** The claim protocol: which records are dirtied *)

Lemma foldl_sift listeners missing lists :
  foldl sift (missing, lists) listeners
  = (still_missing missing listeners,
     lists ++ filter (λ l, cleanOrLocked l = true) listeners).
Proof.
  revert missing lists.
  induction listeners as [| l listeners IH]; intros missing lists; simpl.
  - by rewrite app_nil_r.
  - unfold sift at 2. simpl. rewrite filter_cons.
    destruct (cleanOrLocked l) eqn:Hl; rewrite IH.
    + rewrite decide_True by done. by rewrite <- app_assoc.
    + rewrite decide_False by done. done.
Qed.

Lemma still_missing_spec listeners keys :
  NoDup keys →
  NoDup (still_missing keys listeners)
  ∧ ∀ n, n ∈ still_missing keys listeners
         ↔ n ∈ keys ∧ ∀ l, l ∈ listeners → db_key l ≠ n.
Proof.
  revert keys. induction listeners as [| l listeners IH]; intros keys Hnd; simpl.
  - split; [done |]. intros n. split; [| tauto].
    intros Hn. split; [done |]. intros l Hl. by apply elem_of_nil in Hl.
  - destruct (IH _ (NoDup_obj_delete (db_key l) keys Hnd)) as [Hnd' Hin].
    split; [done |]. intros n. rewrite Hin, elem_of_obj_delete. split.
    + intros [[Hne Hk] Hrest]. split; [done |].
      intros l' [-> | Hl']%elem_of_cons; [congruence | by apply Hrest].
    + intros [Hk Hall]. split_and!; [| done |].
      * intros ->. apply (Hall l); [apply elem_of_cons; by left | done].
      * intros l' Hl'. apply Hall. apply elem_of_cons. by right.
Qed.

Lemma cleanLockedOrMissing_eq dbNames listeners :
  cleanLockedOrMissing dbNames listeners
  = filter (λ l, cleanOrLocked l = true) listeners
    ++ (missing_doc <$> still_missing (flip dbNames) listeners).
Proof. unfold cleanLockedOrMissing. by rewrite foldl_sift. Qed.

Lemma cleanOrLocked_missing_doc n : cleanOrLocked (missing_doc n) = true.
Proof. done. Qed.

Lemma field_insert k k' v (d : Doc) :
  field (<[k := v]> d) k' = if decide (k = k') then v else field d k'.
Proof. unfold field. rewrite lookup_insert. by case_decide. Qed.

Lemma field_delete k k' (d : Doc) :
  field (delete k d) k' = if decide (k = k') then JUndefined else field d k'.
Proof.
  unfold field. case_decide as Hk.
  - subst k'. by rewrite lookup_delete_eq.
  - by rewrite lookup_delete_ne.
Qed.

Lemma dirtyOrCreate_one_missing E t n :
  dirtyOrCreate_one E t (missing_doc n)
  = <["updated_at" := JStr (toISOString E t)]>
      (<["dirty" := JBool true]>
         (<["type" := JStr "change_listener"]>
            (<["_id" := JStr (String.append _idPrefix n)]> (missing_doc n)))).
Proof. done. Qed.


(** ** The store's bulk write *)

Lemma put_frame d st k :
  js_to_string (field d "_id") ≠ k → (put d st).2 !! k = st !! k.
Proof.
  intros Hk. unfold put. case_decide; simpl; [| done].
  by rewrite lookup_insert_ne.
Qed.

Lemma bulkCreateOrUpdate_frame docs st k :
  (∀ d, d ∈ docs → js_to_string (field d "_id") ≠ k) →
  (bulkCreateOrUpdate docs st).2 !! k = st !! k.
Proof.
  revert st. induction docs as [| d docs IH]; intros st Hk; simpl; [done |].
  destruct (put d st) as [item st1] eqn:Hput.
  destruct (bulkCreateOrUpdate docs st1) as [items st2] eqn:Hbulk. simpl.
  replace st2 with (bulkCreateOrUpdate docs st1).2 by by rewrite Hbulk.
  rewrite IH by (intros d' Hd'; apply Hk, elem_of_cons; by right).
  replace st1 with (put d st).2 by by rewrite Hput.
  apply put_frame, Hk, elem_of_cons. by left.
Qed.

Lemma bulkCreateOrUpdate_length docs st :
  length (bulkCreateOrUpdate docs st).1 = length docs.
Proof.
  revert st. induction docs as [| d docs IH]; intros st; simpl; [done |].
  destruct (put d st) as [item st1].
  specialize (IH st1). destruct (bulkCreateOrUpdate docs st1) as [items st2].
  simpl in *. by rewrite IH.
Qed.

(** What [_dirtyOrCreate] sends to the store and what it returns. *)
Lemma _dirtyOrCreate_eq E listeners w :
  let written := dirtyOrCreate_one E (now w) <$> listeners in
  let result := bulkCreateOrUpdate written (store w) in
  _dirtyOrCreate E listeners w
  = (Return (written, result.1), with_store (λ _, result.2) w).
Proof.
  simpl. unfold _dirtyOrCreate.
  by destruct (bulkCreateOrUpdate _ _).
Qed.

(** ** The claim protocol: the write to an existing record *)

(** C9: the document written for an existing record.  When the record has an
    id, the loop of [_dirtyOrCreate] sets [dirty] to true and [updated_at] to
    the current time and leaves every other field of the document as it was
    fetched, [locked_at], [last_seq], [dirty_at] and [retries] among them;
    that document is what the bulk write receives. *)
Theorem dirtying_existing_changes_only_dirty_and_updated_at
    (E : Collab) (t : Z) (listener : Doc) :
  truthy (field listener "_id") = true →
  let written := dirtyOrCreate_one E t listener in
  written = <["updated_at" := JStr (toISOString E t)]>
              (<["dirty" := JBool true]> listener)
  ∧ written !! "dirty" = Some (JBool true)
  ∧ written !! "updated_at" = Some (JStr (toISOString E t))
  ∧ (∀ k, k ≠ "dirty" → k ≠ "updated_at" → written !! k = listener !! k)
  ∧ written !! "locked_at" = listener !! "locked_at"
  ∧ written !! "last_seq" = listener !! "last_seq"
  ∧ written !! "dirty_at" = listener !! "dirty_at"
  ∧ written !! "retries" = listener !! "retries"
  ∧ (∀ listeners w, listener ∈ listeners → now w = t →
       ∃ response w',
         _dirtyOrCreate E listeners w
         = (Return (dirtyOrCreate_one E t <$> listeners, response), w')
         ∧ written ∈ dirtyOrCreate_one E t <$> listeners).
Proof.
  intros Hid written.
  assert (Heq : written = <["updated_at" := JStr (toISOString E t)]>
                            (<["dirty" := JBool true]> listener)).
  { subst written. unfold dirtyOrCreate_one. by rewrite Hid. }
  assert (Hframe : ∀ k, k ≠ "dirty" → k ≠ "updated_at" →
            written !! k = listener !! k).
  { intros k Hd Hu. rewrite Heq.
    rewrite lookup_insert_ne by done. by rewrite lookup_insert_ne. }
  split_and!; [done | | | done | | | | |].
  - rewrite Heq. rewrite lookup_insert_ne by done. apply lookup_insert_eq.
  - rewrite Heq. apply lookup_insert_eq.
  - by apply Hframe.
  - by apply Hframe.
  - by apply Hframe.
  - by apply Hframe.
  - intros listeners w Hin <-. rewrite _dirtyOrCreate_eq. simpl.
    eexists _, _. split; [done |].
    apply list_elem_of_fmap. by exists listener.
Qed.

(** The scenario of the specification: the listener of [a] is locked and not
    dirty; after the claim it is dirty and [locked_at] is as before. *)
Lemma dirtying_existing_changes_only_dirty_and_updated_at_witness :
  truthy (field Sample.locked_clean "_id") = true
  ∧ field Sample.locked_clean "dirty" = JBool false
  ∧ let written := dirtyOrCreate_one (Sample.collab Sample.all_succeed 3 id)
                     1000 Sample.locked_clean in
    written !! "dirty" = Some (JBool true)
    ∧ written !! "locked_at" = Sample.locked_clean !! "locked_at"
    ∧ written !! "last_seq" = Sample.locked_clean !! "last_seq".
Proof.
  split; [reflexivity |]. split; [reflexivity |].
  destruct (dirtying_existing_changes_only_dirty_and_updated_at
              (Sample.collab Sample.all_succeed 3 id) 1000 Sample.locked_clean
              eq_refl)
    as (_ & Hdirty & _ & _ & Hlocked & Hseq & _).
  split; [exact Hdirty |]. split; [exact Hlocked | exact Hseq].
Defined.

(** ** The claim protocol: conflicts *)

Lemma collect_conflicts_spec listeners response : ∀ i acc names,
  collect_conflicts listeners i response acc = Return names →
  NoDup acc →
  NoDup names
  ∧ ∀ n, n ∈ names
      ↔ n ∈ acc
        ∨ ∃ j l r, response !! j = Some r ∧ listeners !! (i + j)%nat = Some l
                   ∧ isConflictError r = true ∧ db_key l = n.
Proof.
  induction response as [| doc response IH]; intros i acc names Hrun Hnd;
    simpl in Hrun.
  - injection Hrun as <-. split; [done |]. intros n. split; [by left |].
    intros [? | (j & l & r & Hr & _)]; [done | by rewrite lookup_nil in Hr].
  - destruct (isConflictError doc) eqn:Hdoc.
    + destruct (listeners !! i) as [l |] eqn:Hl; [| done].
      destruct (IH _ _ _ Hrun (NoDup_obj_set _ _ Hnd)) as [Hnd' Hin].
      split; [done |]. intros n. rewrite Hin, elem_of_obj_set. split.
      * intros [[-> | ?] | (j & l' & r & Hr & Hl' & Hc & Hn)]; [| by left |].
        -- right. exists 0%nat, l, doc. by rewrite Nat.add_0_r.
        -- right. exists (S j), l', r.
           by rewrite <- Nat.add_succ_comm.
      * intros [? | (j & l' & r & Hr & Hl' & Hc & Hn)]; [by left; right |].
        destruct j as [| j]; simpl in Hr.
        -- rewrite Nat.add_0_r in Hl'. left. left.
           injection Hr as <-. rewrite Hl in Hl'. by injection Hl' as <-.
        -- right. exists j, l', r. by rewrite Nat.add_succ_comm.
    + destruct (IH _ _ _ Hrun Hnd) as [Hnd' Hin].
      split; [done |]. intros n. rewrite Hin. split.
      * intros [? | (j & l' & r & Hr & Hl' & Hc & Hn)]; [by left |].
        right. exists (S j), l', r. by rewrite <- Nat.add_succ_comm.
      * intros [? | (j & l' & r & Hr & Hl' & Hc & Hn)]; [by left |].
        destruct j as [| j]; simpl in Hr.
        -- injection Hr as <-. congruence.
        -- right. exists j, l', r. by rewrite Nat.add_succ_comm.
Qed.

Lemma collect_conflicts_returns listeners response : ∀ i acc,
  (i + length response ≤ length listeners)%nat →
  ∃ names, collect_conflicts listeners i response acc = Return names.
Proof.
  induction response as [| doc response IH]; intros i acc Hlen; simpl in *.
  - by eexists.
  - destruct (isConflictError doc).
    + destruct (lookup_lt_is_Some_2 listeners i) as [l ->]; [lia |].
      apply IH. lia.
    + apply IH. lia.
Qed.

(** One attempt, spelled out: the selected listeners, the documents written
    for them, and the store's response after the race. *)
Lemma _attemptToDirtyIfCleanOrLocked_eq E race dbNames w :
  let selected := cleanLockedOrMissing dbNames (viewArray dbNames (store w)) in
  let written := dirtyOrCreate_one E (now w) <$> selected in
  let result := bulkCreateOrUpdate written (race (store w)) in
  _attemptToDirtyIfCleanOrLocked E race dbNames w
  = if bool_decide (0 < length selected)%nat then
      match collect_conflicts written 0 result.1 [] with
      | Return names => (Return (Some names), with_store (λ _, result.2) w)
      | Throw e => (Throw e, with_store (λ _, result.2) w)
      end
    else (Return None, with_store race w).
Proof.
  simpl. unfold _attemptToDirtyIfCleanOrLocked, _getCleanLockedOrMissing,
    _getByDBNames, _dirtyAndGetConflictedDBNames, bind, ret, get_world, modify.
  simpl. case_bool_decide; [| done].
  rewrite _dirtyOrCreate_eq. simpl.
  by destruct (collect_conflicts _ _ _ _).
Qed.

Lemma _attemptToDirtyIfCleanOrLocked_returns E race dbNames w :
  ∃ r, (_attemptToDirtyIfCleanOrLocked E race dbNames w).1 = Return r.
Proof.
  rewrite _attemptToDirtyIfCleanOrLocked_eq. simpl.
  case_bool_decide; [| by eexists].
  edestruct (collect_conflicts_returns
    (dirtyOrCreate_one E (now w)
       <$> cleanLockedOrMissing dbNames (viewArray dbNames (store w)))) as [names ->];
    [| by eexists].
  by rewrite bulkCreateOrUpdate_length.
Qed.

Lemma dirtyIfCleanOrLocked_returns E fuel : ∀ races dbNames w,
  ∃ r, (dirtyIfCleanOrLocked E fuel races dbNames w).1 = Return r.
Proof.
  induction fuel as [| fuel IH]; intros races dbNames w; simpl.
  - by eexists.
  - unfold bind.
    destruct (_attemptToDirtyIfCleanOrLocked_returns E (hd id races) dbNames w)
      as [r Hr].
    destruct (_attemptToDirtyIfCleanOrLocked E (hd id races) dbNames w)
      as [o w']. simpl in Hr. subst o.
    destruct r as [[| name names] |]; [by eexists | apply IH | by eexists].
Qed.

(** An attempt writes to the records of the documents it selected and to no
    other. *)
Lemma _attemptToDirtyIfCleanOrLocked_frame E dbNames w race key :
  (∀ d, d ∈ cleanLockedOrMissing dbNames (viewArray dbNames (store w)) →
        js_to_string (field (dirtyOrCreate_one E (now w) d) "_id") ≠ key) →
  store (_attemptToDirtyIfCleanOrLocked E race dbNames w).2 !! key
  = race (store w) !! key.
Proof.
  intros Hkey. rewrite _attemptToDirtyIfCleanOrLocked_eq. cbv zeta.
  case_bool_decide; [| done].
  assert (Hframe :
    (bulkCreateOrUpdate
       (dirtyOrCreate_one E (now w)
          <$> cleanLockedOrMissing dbNames (viewArray dbNames (store w)))
       (race (store w))).2 !! key = race (store w) !! key).
  { apply bulkCreateOrUpdate_frame. intros d' (d & -> & Hd)%list_elem_of_fmap.
    by apply Hkey. }
  by destruct (collect_conflicts _ _ _ _).
Qed.

(** C6: conflicts in the claim protocol.  From a bulk response the protocol
    collects the names of exactly those listeners whose document was rejected
    with a conflict, each name once; an attempt returns that list for the
    documents it wrote; [dirtyIfCleanOrLocked] calls itself on that list when
    it is not empty and returns otherwise; and it never throws, whatever the
    other processes write in between. *)
Theorem conflicts_are_collected_and_retried
    (E : Collab) (fuel : nat) (races : list (Store → Store))
    (dbNames : list string) (w : World) :
  let race := hd id races in
  let selected := cleanLockedOrMissing dbNames (viewArray dbNames (store w)) in
  let written := dirtyOrCreate_one E (now w) <$> selected in
  let response := (bulkCreateOrUpdate written (race (store w))).1 in
  let attempt := _attemptToDirtyIfCleanOrLocked E race dbNames w in
  (∀ listeners items names,
     collect_conflicts listeners 0 items [] = Return names →
     NoDup names
     ∧ ∀ n, n ∈ names
         ↔ ∃ i l r, listeners !! i = Some l ∧ items !! i = Some r
                    ∧ isConflictError r = true ∧ db_key l = n)
  ∧ ((selected = [] ∧ attempt.1 = Return None)
     ∨ (selected ≠ []
        ∧ ∃ names, attempt.1 = Return (Some names)
                   ∧ collect_conflicts written 0 response [] = Return names))
  ∧ dirtyIfCleanOrLocked E (S fuel) races dbNames w
    = match attempt with
      | (Return (Some (name :: names)), w') =>
          dirtyIfCleanOrLocked E fuel (tl races) (name :: names) w'
      | (Return _, w') => (Return (Some tt), w')
      | (Throw e, w') => (Throw e, w')
      end
  ∧ ∃ r, (dirtyIfCleanOrLocked E fuel races dbNames w).1 = Return r.
Proof.
  intros race selected written response attempt. split_and!.
  - intros listeners items names Hrun.
    destruct (collect_conflicts_spec _ _ _ _ _ Hrun (NoDup_nil_2)) as [Hnd Hin].
    split; [done |]. intros n. rewrite Hin, elem_of_nil. split.
    + intros [[] | (j & l & r & ? & ? & ? & ?)]. by exists j, l, r.
    + intros (j & l & r & ? & ? & ? & ?). right. by exists j, l, r.
  - destruct (collect_conflicts_returns written response 0 []) as [names Hnames].
    { subst written response. by rewrite bulkCreateOrUpdate_length. }
    subst attempt response written selected race.
    rewrite _attemptToDirtyIfCleanOrLocked_eq. cbv zeta.
    rewrite Hnames. case_bool_decide as Hlen.
    + right. split; [by intros Hnil; rewrite Hnil in Hlen; simpl in Hlen; lia |].
      by exists names.
    + left. split; [| done].
      destruct (cleanLockedOrMissing _ _); [done | simpl in Hlen; lia].
  - simpl. unfold bind. subst attempt race.
    destruct (_attemptToDirtyIfCleanOrLocked E (hd id races) dbNames w)
      as [[[[| name names] |] | e] w']; done.
  - apply dirtyIfCleanOrLocked_returns.
Qed.

(** The scenario of the specification: [dirtyIfCleanOrLocked(["a", "b"])]
    with no existing records leaves two new records, both dirty, with ids
    made from the names. *)
Example claim_creates_missing_records :
  let E := Sample.collab Sample.all_succeed 3 id in
  let run := dirtyIfCleanOrLocked E 1 [] ["a"; "b"] (mkWorld 1000 ∅ [] [] []) in
  run.1 = Return (Some tt)
  ∧ dom (store run.2) = {[ "spiegel_cl_a"; "spiegel_cl_b" ]}
  ∧ (λ d, (field d "db_name", field d "dirty", field d "type"))
      <$> store run.2 !! "spiegel_cl_a"
    = Some (JStr "a", JBool true, JStr "change_listener")
  ∧ (λ d, (field d "db_name", field d "dirty", field d "type"))
      <$> store run.2 !! "spiegel_cl_b"
    = Some (JStr "b", JBool true, JStr "change_listener").
Proof. vm_compute. done. Qed.

(** A race resolved: while this process is about to dirty the clean record of
    [a], another claims it; the write is rejected, [a] is tried again and
    found dirty by then. *)
Example claim_converges_after_conflict :
  let E := Sample.collab Sample.all_succeed 3 id in
  let w := Sample.world (<["locked_at" := JNull]> Sample.locked_clean) in
  (_attemptToDirtyIfCleanOrLocked E Sample.claim_a ["a"] w).1
    = Return (Some ["a"])
  ∧ (dirtyIfCleanOrLocked E 1 [Sample.claim_a] ["a"] w).1 = Return None
  ∧ (dirtyIfCleanOrLocked E 2 [Sample.claim_a] ["a"] w).1 = Return (Some tt)
  ∧ (λ d, (field d "dirty", field d "_rev"))
      <$> store (dirtyIfCleanOrLocked E 2 [Sample.claim_a] ["a"] w).2
            !! "spiegel_cl_a"
    = Some (JBool true, JNum 5).
Proof. vm_compute. done. Qed.

(** ** The merge-upsert of [last_seq] *)

Lemma put_accepted d st :
  field d "_rev" = stored_rev st (js_to_string (field d "_id")) →
  put d st
  = (ItemOk (js_to_string (field d "_id"))
       (next_rev (stored_rev st (js_to_string (field d "_id")))),
     <[js_to_string (field d "_id")
       := <["_rev" := next_rev (stored_rev st (js_to_string (field d "_id")))]> d]>
       st).
Proof. intros Hrev. unfold put. by rewrite decide_True. Qed.

Lemma put_rejected d st :
  field d "_rev" ≠ stored_rev st (js_to_string (field d "_id")) →
  put d st = (ItemError (js_to_string (field d "_id")) "conflict", st).
Proof. intros Hrev. unfold put. by rewrite decide_False. Qed.

Section MergeUpsert.
Context (partial : Doc) (id : jsval).
Hypothesis partial_id : partial !! "_id" = Some id.
Hypothesis partial_no_rev : partial !! "_rev" = None.

Let key : string := js_to_string id.
Let merged (st : Store) : Doc := partial ∪ default ∅ (st !! key).

Lemma merged_id st : js_to_string (field (merged st) "_id") = key.
Proof.
  unfold merged, field.
  by rewrite (lookup_union_Some_l _ _ _ _ partial_id).
Qed.

Lemma merged_rev st : field (merged st) "_rev" = stored_rev st key.
Proof.
  unfold merged, field, stored_rev.
  rewrite lookup_union_r by done.
  by destruct (st !! key).
Qed.

(** The record a merge-upsert leaves: the partial document laid over the
    record read by the attempt that got through, which is the stored record
    after the first [k] racing edits. *)
Lemma getMergeUpsert_lookup races : ∀ st,
  ∃ k, (k ≤ length races)%nat
       ∧ getMergeUpsert races partial st !! key
         = let st_k := foldl (race_write key) st (take k races) in
           Some (<["_rev" := next_rev (stored_rev st_k key)]> (merged st_k)).
Proof.
  induction races as [| edit races IH]; intros st; simpl.
  - exists 0%nat. split; [done |]. simpl.
    replace (field partial "_id") with id
      by (unfold field; by rewrite partial_id).
    fold key (merged st).
    rewrite put_accepted by (by rewrite merged_id, merged_rev).
    simpl. rewrite merged_id. apply lookup_insert_eq.
  - replace (field partial "_id") with id
      by (unfold field; by rewrite partial_id).
    fold key (merged st).
    destruct (decide (field (merged st) "_rev"
                      = stored_rev (race_write key st edit) key)) as [Hrev | Hrev].
    + exists 0%nat. split; [lia |]. simpl.
      pose proof (merged_id st) as Hid.
      rewrite put_accepted by (by rewrite Hid).
      rewrite Hid, lookup_insert_eq.
      by rewrite <- Hrev, merged_rev.
    + pose proof (merged_id st) as Hid.
      rewrite put_rejected by (by rewrite Hid).
      destruct (IH (race_write key st edit)) as (k & Hk & Hlookup).
      exists (S k). split; [lia |]. done.
Qed.

Lemma getMergeUpsert_frame_quiet st k' :
  k' ≠ key → getMergeUpsert [] partial st !! k' = st !! k'.
Proof.
  intros Hk'. simpl. apply put_frame.
  replace (field partial "_id") with id
    by (unfold field; by rewrite partial_id).
  fold key (merged st). by rewrite merged_id.
Qed.

End MergeUpsert.

Lemma lastSeqDoc_lookup id lastSeq :
  lastSeqDoc id lastSeq !! "_id" = Some id
  ∧ lastSeqDoc id lastSeq !! "last_seq" = Some lastSeq
  ∧ ∀ f, f ≠ "_id" → f ≠ "last_seq" → lastSeqDoc id lastSeq !! f = None.
Proof.
  unfold lastSeqDoc. split_and!; [done | done |].
  intros f H1 H2. rewrite lookup_insert_ne by done.
  by apply lookup_singleton_ne.
Qed.

(** The record a merge-upsert of [{_id, last_seq}] leaves. *)
Lemma getMergeUpsert_lastSeqDoc races id lastSeq st :
  ∃ k d,
    (k ≤ length races)%nat
    ∧ getMergeUpsert races (lastSeqDoc id lastSeq) st !! js_to_string id = Some d
    ∧ d !! "last_seq" = Some lastSeq
    ∧ d !! "_id" = Some id
    ∧ ∀ f, f ≠ "_id" → f ≠ "last_seq" → f ≠ "_rev" →
        d !! f
        = default ∅ (foldl (race_write (js_to_string id)) st (take k races)
                       !! js_to_string id) !! f.
Proof.
  destruct (lastSeqDoc_lookup id lastSeq) as (Hid & Hseq & Hother).
  assert (Hrev : lastSeqDoc id lastSeq !! "_rev" = None) by by apply Hother.
  destruct (getMergeUpsert_lookup _ id Hid Hrev races st) as (k & Hk & Hlookup).
  exists k. eexists. split; [done |]. split; [exact Hlookup |]. split_and!.
  - rewrite lookup_insert_ne by done. by apply lookup_union_Some_l.
  - rewrite lookup_insert_ne by done. by apply lookup_union_Some_l.
  - intros f H1 H2 H3. rewrite lookup_insert_ne by done.
    apply lookup_union_r. by apply Hother.
Qed.

(** C10: the advance of the resume position.  [_updateLastSeq] hands the
    store's merge-upsert a document with the two fields [_id] and [last_seq]
    and nothing else.  Whatever edits other processes get in while the
    merge-upsert retries, the record it leaves carries the new [last_seq], and
    every other field of it (the revision, which the store assigns, apart) is
    as in the record the successful attempt read, that is the stored record
    after the racing edits made until then; without races that is the record
    as it was, and no other record changes. *)
Theorem last_seq_advance_is_partial_and_survives_races
    (E : Collab) (id lastSeq : jsval) (w : World) :
  let key := js_to_string id in
  let partial := lastSeqDoc id lastSeq in
  let w' := (_updateLastSeq E id lastSeq w).2 in
  dom partial = {[ "_id"; "last_seq" ]}
  ∧ _updateLastSeq E id lastSeq w
    = (Return tt, with_store (getMergeUpsert (upsert_races E) partial) w)
  ∧ (∃ k d,
       (k ≤ length (upsert_races E))%nat
       ∧ store w' !! key = Some d
       ∧ d !! "last_seq" = Some lastSeq
       ∧ d !! "_id" = Some id
       ∧ ∀ f, f ≠ "_id" → f ≠ "last_seq" → f ≠ "_rev" →
           d !! f
           = default ∅ (foldl (race_write key) (store w)
                          (take k (upsert_races E)) !! key) !! f)
  ∧ (upsert_races E = [] →
     (∀ key', key' ≠ key → store w' !! key' = store w !! key')
     ∧ ∃ d, store w' !! key = Some d
            ∧ ∀ f, f ≠ "_id" → f ≠ "last_seq" → f ≠ "_rev" →
                d !! f = default ∅ (store w !! key) !! f).
Proof.
  intros key partial w'.
  split_and!.
  - unfold partial, lastSeqDoc. rewrite dom_insert_L, dom_singleton_L.
    done.
  - done.
  - destruct (getMergeUpsert_lastSeqDoc (upsert_races E) id lastSeq (store w))
      as (k & d & Hk & Hd & Hseq & Hid & Hframe).
    by exists k, d.
  - intros Hquiet. subst w'. unfold _updateLastSeq, modify. simpl.
    rewrite Hquiet. split.
    + intros key' Hkey'.
      destruct (lastSeqDoc_lookup id lastSeq) as (Hid & _ & Hother).
      by apply (getMergeUpsert_frame_quiet partial id Hid).
    + destruct (getMergeUpsert_lastSeqDoc [] id lastSeq (store w))
        as (k & d & Hk & Hd & Hseq & Hid & Hframe).
      exists d. split; [done |].
      replace k with 0%nat in Hframe by (simpl in Hk; lia). done.
Qed.

(** A racing re-dirtying and the advance: the locked record of [a] is clean
    when the merge-upsert reads it and is dirtied by another process before
    the write; the write is rejected and repeated, and the record ends up
    both dirty and at the new [last_seq]. *)
Example redirtying_does_not_lose_last_seq :
  let E := mkCollab 100 Sample.toISOString Sample.toISOString_nonempty inr
             (λ _ _ _, inr Sample.page) (λ _ _, Sample.all_succeed Sample.c1)
             (λ _, false) (λ _, WholeSecs 5) id [Sample.redirty] in
  let w := (_updateLastSeq E (JStr "spiegel_cl_a") (JStr "3")
              (Sample.world Sample.locked_clean)).2 in
  (λ d, (field d "dirty", field d "last_seq", field d "locked_at", field d "_rev"))
    <$> store w !! "spiegel_cl_a"
  = Some (JBool true, JStr "3", JStr "T900", JNum 6).
Proof. vm_compute. done. Qed.

(** ** The retry scheduler *)

Lemma _updateItem_eq item w :
  let key := js_to_string (field item "_id") in
  _updateItem item w
  = (Return tt,
     with_store
       (λ st, <[key := <["_rev" := next_rev (stored_rev st key)]> item]> st) w).
Proof.
  simpl. unfold _updateItem, modify, with_store. do 2 f_equal.
  assert (Hid : field (<["_rev" := stored_rev (store w)
                            (js_to_string (field item "_id"))]> item) "_id"
                = field item "_id") by (by rewrite field_insert).
  rewrite put_accepted; rewrite Hid; [| by rewrite field_insert].
  simpl. f_equal. apply insert_insert_eq.
Qed.

Lemma _scheduleRetry_eq E item w :
  let r := retries_of item in
  let key := js_to_string (field item "_id") in
  _scheduleRetry E item w
  = (if hasReachedRetryLimit E r then
       (Return (delete "dirty_at" (<["retries" := JNum 0]> item)), w)
     else
       match date_after (now w) (getDelaySecs E r) with
       | None => (Throw RangeError, w)
       | Some v =>
           let dirtyTime := toISOString E v in
           let rearmed :=
             <["retries" := js_plus_one r]> (<["dirty_at" := JStr dirtyTime]> item) in
           (Return rearmed,
            with_soiled (λ ts, ts ++ [dirtyTime])
              (with_store
                 (λ st, <[key := <["_rev" := next_rev (stored_rev st key)]> rearmed]> st)
                 w))
       end).
Proof.
  intros r key. unfold _scheduleRetry. fold r.
  destruct (hasReachedRetryLimit E r); [done |].
  unfold bind, get_world, dirtyTime_at.
  destruct (date_after (now w) (getDelaySecs E r)) as [v |]; [| done].
  unfold ret, _setDirtyAt. rewrite _updateItem_eq. cbv zeta.
  rewrite !field_insert. done.
Qed.

Lemma round53_small z : Z.abs z < 2 ^ 53 → round53 z = z.
Proof.
  intros Hz. unfold round53.
  by rewrite (proj2 (Z.ltb_lt _ _) Hz).
Qed.

(** A whole number of seconds within the range of dates is added exactly. *)
Lemma date_after_whole t n :
  Z.abs n * 1000 < 2 ^ 53 → Z.abs (t + n * 1000) ≤ maxTime →
  date_after t (WholeSecs n) = Some (t + n * 1000).
Proof.
  intros Hn Ht. unfold date_after, TimeClip, maxTime in *.
  rewrite (round53_small n) by lia.
  rewrite (round53_small (n * 1000)) by lia.
  rewrite (round53_small (t + n * 1000)) by lia.
  by rewrite (proj2 (Z.leb_le _ _) Ht).
Qed.

(** C4: the retry scheduler, as the code has it.  With [r] the item's retry
    count, 0 when the field is absent: if the backoff policy reports the
    limit reached for [r], the scheduler clears [retries] to 0, leaves the
    item without a [dirty_at], and persists and announces nothing.
    Otherwise, if the delay of the policy for [r] added to the current time
    is a valid date, it sets [dirty_at] to that date and [retries] to the JS
    number [r + 1], persists the item and hands the new [dirty_at] to the
    wakeup queue; if it is not a valid date, the scheduler throws a
    [RangeError] and changes nothing.  A whole number of seconds within the
    range of dates gives the date that many seconds from now, and a count
    below 2^53 - 1 goes up by exactly one. *)
Theorem retry_scheduler_clears_rearms_or_throws
    (E : Collab) (item : Doc) (w : World) :
  let r := retries_of item in
  let key := js_to_string (field item "_id") in
  let cleared := delete "dirty_at" (<["retries" := JNum 0]> item) in
  (item !! "retries" = None → r = JNum 0)
  ∧ (∀ n, item !! "retries" = Some (JNum n) → r = JNum n)
  ∧ (hasReachedRetryLimit E r = true →
       _scheduleRetry E item w = (Return cleared, w)
       ∧ cleared !! "retries" = Some (JNum 0)
       ∧ cleared !! "dirty_at" = None
       ∧ ∀ f, f ≠ "retries" → f ≠ "dirty_at" → cleared !! f = item !! f)
  ∧ (hasReachedRetryLimit E r = false →
     ∀ v, date_after (now w) (getDelaySecs E r) = Some v →
       let dirtyTime := toISOString E v in
       let rearmed :=
         <["retries" := js_plus_one r]> (<["dirty_at" := JStr dirtyTime]> item) in
       let after := (_scheduleRetry E item w).2 in
       (_scheduleRetry E item w).1 = Return rearmed
       ∧ rearmed !! "dirty_at" = Some (JStr dirtyTime)
       ∧ rearmed !! "retries" = Some (js_plus_one r)
       ∧ (∀ f, f ≠ "retries" → f ≠ "dirty_at" → rearmed !! f = item !! f)
       ∧ store after
         = <[key := <["_rev" := next_rev (stored_rev (store w) key)]> rearmed]>
             (store w)
       ∧ soiled after = soiled w ++ [dirtyTime]
       ∧ reported after = reported w)
  ∧ (hasReachedRetryLimit E r = false →
     date_after (now w) (getDelaySecs E r) = None →
       _scheduleRetry E item w = (Throw RangeError, w))
  ∧ (∀ n, getDelaySecs E r = WholeSecs n →
       Z.abs n * 1000 < 2 ^ 53 → Z.abs (now w + n * 1000) ≤ maxTime →
       date_after (now w) (getDelaySecs E r) = Some (now w + n * 1000))
  ∧ (∀ n, r = JNum n → 0 ≤ n < 2 ^ 53 - 1 → js_plus_one r = JNum (n + 1)).
Proof.
  intros r key cleared. split_and!.
  - intros Hnone. subst r. unfold retries_of, field. by rewrite Hnone.
  - intros n Hn. subst r. unfold retries_of, field. rewrite Hn. simpl.
    destruct (decide (n = 0)) as [-> | Hn0]; [done |].
    by rewrite (proj2 (Z.eqb_neq n 0) Hn0).
  - intros Hlimit. rewrite _scheduleRetry_eq. cbv zeta. fold r.
    rewrite Hlimit. subst cleared. split_and!.
    + done.
    + rewrite lookup_delete_ne by done. apply lookup_insert_eq.
    + apply lookup_delete_eq.
    + intros f H1 H2. rewrite lookup_delete_ne by done.
      by rewrite lookup_insert_ne.
  - intros Hlimit v Hv dirtyTime rearmed after. subst after.
    rewrite _scheduleRetry_eq. cbv zeta. fold r key.
    rewrite Hlimit, Hv. fold dirtyTime rearmed. split_and!.
    + done.
    + subst rearmed. rewrite lookup_insert_ne by done. apply lookup_insert_eq.
    + apply lookup_insert_eq.
    + intros f H1 H2. subst rearmed.
      rewrite lookup_insert_ne by done. by rewrite lookup_insert_ne.
    + done.
    + done.
    + done.
  - intros Hlimit Hv. rewrite _scheduleRetry_eq. cbv zeta. fold r.
    by rewrite Hlimit, Hv.
  - intros n -> Hn Ht. by apply date_after_whole.
  - intros n -> Hn. unfold js_plus_one. by rewrite round53_small by lia.
Qed.

(** Against C4 as stated: a backoff policy whose delays are not numbers (its
    multiplier is read with [parseFloat]) on a listener that has failed once
    under a limit of three.  The limit is not reached, and the scheduler
    throws before it sets [dirty_at]: the retry count stays at 1, nothing is
    persisted and no wakeup is queued. *)
Lemma retry_is_not_scheduled_when_the_delay_is_not_a_number :
  let E := Sample2.unparsed in
  let item := Sample.listener 1 in
  let w := Sample.world item in
  hasReachedRetryLimit E (retries_of item) = false
  ∧ getDelaySecs E (retries_of item) = NotANumber
  ∧ _scheduleRetry E item w = (Throw RangeError, w)
  ∧ (λ d, (field d "retries", field d "dirty_at"))
      <$> store (_scheduleRetry E item w).2 !! "spiegel_cl_a"
    = Some (JNum 1, JUndefined)
  ∧ soiled (_scheduleRetry E item w).2 = [].
Proof. by vm_compute. Qed.

(** The scenario of the specification: a first failure under the default
    linear policy re-arms the listener five seconds ahead with one retry
    counted; at the limit the counter is cleared and nothing else happens. *)
Example retry_scheduler_scenarios :
  let E := Sample.collab Sample.all_succeed 3 id in
  let run r := _scheduleRetry E (Sample.listener r) (Sample.world (Sample.listener r)) in
  ((λ d, (field d "retries", field d "dirty_at")) <$> returned (run 0).1,
   soiled (run 0).2,
   (λ d, (field d "retries", field d "dirty_at"))
     <$> store (run 0).2 !! "spiegel_cl_a")
  = (Some (JNum 1, JStr "T6000"), ["T6000"], Some (JNum 1, JStr "T6000"))
  ∧ ((λ d, (field d "retries", field d "dirty_at")) <$> returned (run 3).1,
     soiled (run 3).2,
     (λ d, (field d "retries", field d "dirty_at"))
       <$> store (run 3).2 !! "spiegel_cl_a")
    = (Some (JNum 0, JUndefined), [], Some (JNum 3, JUndefined)).
Proof. vm_compute. done. Qed.

(** ** The batch engine: dispatch and join *)

Lemma observe_nil w : observe [] w = w.
Proof. destruct w. unfold observe. simpl. by rewrite app_nil_r. Qed.

Lemma observe_observe es1 es2 w :
  observe es2 (observe es1 w) = observe (es1 ++ es2) w.
Proof. unfold observe. simpl. by rewrite app_assoc. Qed.

(** Dispatch in arrival order: when no dispatch fails the chain hands every
    change of the page to the dispatcher, one after the other in the order of
    the page, and gathers every request pushed. *)
Lemma chain_succeeds E dbName changes : ∀ requests w,
  dispatches_succeed E dbName changes →
  chain E dbName changes requests w
  = (Return (requests ++ pushed_by E dbName changes),
     observe (dispatch_trace dbName changes) w).
Proof.
  induction changes as [| c changes IH]; intros requests w Hok; simpl.
  - unfold ret. by rewrite app_nil_r, observe_nil.
  - unfold bind, modify. simpl.
    rewrite (Hok c) by (apply elem_of_cons; by left).
    rewrite IH by (intros c' Hc'; apply Hok, elem_of_cons; by right).
    rewrite !observe_observe. unfold pushed_by at 2, dispatch_trace at 2.
    simpl. by rewrite <- app_assoc.
Qed.

(** When a dispatch fails, the changes behind it are not dispatched and the
    error is thrown. *)
Lemma chain_fails E dbName before c after err : ∀ requests w,
  dispatches_succeed E dbName before →
  failure (process E c dbName) = Some err →
  chain E dbName (before ++ c :: after) requests w
  = (Throw err, observe (dispatch_trace dbName before ++ [EvDispatch c dbName]) w).
Proof.
  induction before as [| c' before IH]; intros requests w Hok Hfail; simpl.
  - unfold bind, modify. simpl. by rewrite Hfail.
  - unfold bind, modify. simpl.
    rewrite (Hok c') by (apply elem_of_cons; by left).
    rewrite IH; [| intros c'' Hc''; apply Hok, elem_of_cons; by right | done].
    by rewrite !observe_observe.
Qed.

Lemma first_rejection_None rs :
  first_rejection rs = None ↔ ∀ r, r ∈ rs → rejection r = None.
Proof.
  induction rs as [| r rs IH]; simpl.
  - split; [| done]. intros _ r Hr. by apply elem_of_nil in Hr.
  - destruct (rejection r) as [e |] eqn:Hr.
    + split.
      * destruct (first_rejection rs) as [[t' e'] |]; [| done].
        by case_match.
      * intros Hall. specialize (Hall r). rewrite Hr in Hall.
        discriminate Hall. apply elem_of_cons. by left.
    + rewrite IH. split.
      * intros Hall r' [-> | ?]%elem_of_cons; [done | by apply Hall].
      * intros Hall r' Hr'. apply Hall, elem_of_cons. by right.
Qed.

Lemma first_rejection_Some rs t e :
  first_rejection rs = Some (t, e) →
  (∃ r, r ∈ rs ∧ settles r = t ∧ rejection r = Some e)
  ∧ ∀ r, r ∈ rs → is_Some (rejection r) → (t ≤ settles r)%nat.
Proof.
  revert t e. induction rs as [| r rs IH]; intros t e; simpl; [done |].
  destruct (rejection r) as [e0 |] eqn:Hr.
  - destruct (first_rejection rs) as [[t' e'] |] eqn:Hrest.
    + destruct (IH t' e' eq_refl) as [(r' & Hin & Ht & He) Hmin].
      destruct (settles r <=? t')%nat eqn:Hle; intros [= <- <-].
      * apply Nat.leb_le in Hle. split.
        -- exists r. split_and!; [apply elem_of_cons; by left | done | done].
        -- intros r'' [-> | Hin'']%elem_of_cons Hrej; [lia |].
           specialize (Hmin r'' Hin'' Hrej). lia.
      * apply Nat.leb_gt in Hle. split.
        -- exists r'. split_and!; [apply elem_of_cons; by right | done | done].
        -- intros r'' [-> | Hin'']%elem_of_cons Hrej; [lia |].
           by apply Hmin.
    + intros [= <- <-]. split.
      * exists r. split_and!; [apply elem_of_cons; by left | done | done].
      * intros r'' [-> | Hin'']%elem_of_cons Hrej; [lia |].
        rewrite (proj1 (first_rejection_None rs) Hrest r'' Hin'') in Hrej.
        by destruct Hrej.
  - intros Hrest. destruct (IH t e Hrest) as [(r' & Hin & Ht & He) Hmin]. split.
    + exists r'. split_and!; [apply elem_of_cons; by right | done | done].
    + intros r'' [-> | Hin'']%elem_of_cons Hrej; [| by apply Hmin].
      rewrite Hr in Hrej. by destruct Hrej.
Qed.

(** The join resumes once every request has settled when all are fulfilled,
    and at the first rejection otherwise. *)
Lemma Promise_all_spec rs :
  match Promise_all rs with
  | AllFulfilled tick =>
      (∀ r, r ∈ rs → rejection r = None ∧ (settles r ≤ tick)%nat)
  | FirstRejected tick e =>
      (∃ r, r ∈ rs ∧ settles r = tick ∧ rejection r = Some e)
      ∧ ∀ r, r ∈ rs → is_Some (rejection r) → (tick ≤ settles r)%nat
  end.
Proof.
  unfold Promise_all.
  destruct (first_rejection rs) as [[t e] |] eqn:Hfirst.
  - by apply first_rejection_Some.
  - intros r Hr. split; [by apply (proj1 (first_rejection_None rs)) |].
    clear Hfirst. induction rs as [| r' rs IH]; [by apply elem_of_nil in Hr |].
    rewrite fmap_cons. cbn [foldr].
    apply elem_of_cons in Hr as [-> | Hr]; [lia |].
    specialize (IH Hr). lia.
Qed.

Lemma _waitForRequests_eq E requests listener w :
  _waitForRequests E requests listener w
  = match Promise_all requests with
    | AllFulfilled tick => (Return listener, joined E requests tick w)
    | FirstRejected tick err =>
        let w' := with_reported (λ es, es ++ [err]) (joined E requests tick w) in
        if decide (err_class err = ApiRequestError)
        then _scheduleRetry E listener w'
        else (Throw err, w')
    end.
Proof.
  unfold _waitForRequests, bind, modify, _onError, joined. simpl.
  destruct (Promise_all requests) as [tick | tick err]; simpl; [done |].
  by case_decide.
Qed.

(** The store write of the advance, applied after [_processChanges] when the
    listener it leaves has no [dirty_at]. *)
Lemma _processBatchOfChanges_eq E listener page w :
  fetched E listener = inr page →
  _processBatchOfChanges E listener w
  = match _processChanges E listener page w with
    | (Return listener', w') =>
        (Return (listener', truthy (pending page)),
         if truthy (field listener' "dirty_at") then w'
         else with_store
                (getMergeUpsert (upsert_races E)
                   (lastSeqDoc (field listener' "_id") (last_seq page))) w')
    | (Throw err, w') => (Throw err, w')
    end.
Proof.
  intros Hfetch. unfold _processBatchOfChanges, _changesForListener.
  unfold fetched in Hfetch. rewrite Hfetch. unfold bind at 1. unfold ret at 1.
  unfold bind at 1.
  destruct (_processChanges E listener page w) as [[listener' | err] w']; [| done].
  unfold bind, ret, _updateLastSeq, modify, _moreBatches.
  by destruct (truthy (field listener' "dirty_at")).
Qed.

Lemma _processChanges_eq E listener page w :
  dispatches_succeed E (field listener "db_name") (results page) →
  _processChanges E listener page w
  = _waitForRequests E (pushed_by E (field listener "db_name") (results page))
      listener (observe (dispatch_trace (field listener "db_name") (results page)) w).
Proof.
  intros Hok. unfold _processChanges, bind.
  by rewrite chain_succeeds.
Qed.

Lemma stored_last_seq_advanced E id lastSeq w :
  stored_last_seq
    (with_store (getMergeUpsert (upsert_races E) (lastSeqDoc id lastSeq)) w)
    (js_to_string id)
  = lastSeq.
Proof.
  destruct (getMergeUpsert_lastSeqDoc (upsert_races E) id lastSeq (store w))
    as (k & d & _ & Hd & Hseq & _).
  unfold stored_last_seq. simpl. rewrite Hd. simpl. unfold field. by rewrite Hseq.
Qed.

Lemma truthy_JStr_toISOString E ms : truthy (JStr (toISOString E ms)) = true.
Proof.
  simpl. apply negb_true_iff, String.eqb_neq, toISOString_nonempty.
Qed.

(** ** The batch engine: advancing [last_seq] *)

(** C3, as the code has it.  When the page is fetched, every dispatch hands
    off and every outbound operation succeeds, the batch leaves the listener
    object as it was and returns [!!pending]; it advances [last_seq] to the
    page's cursor exactly when the listener object carries no [dirty_at].
    Without [dirty_at] the stored record ends up at the cursor whatever other
    processes wrote to it during the batch; with [dirty_at] the batch writes
    nothing to the store. *)
Theorem last_seq_advances_unless_listener_has_dirty_at
    (E : Collab) (listener : Doc) (page : Page) (tick : nat) (w : World) :
  fetched E listener = inr page →
  dispatches_succeed E (field listener "db_name") (results page) →
  Promise_all (pushed_by E (field listener "db_name") (results page))
    = AllFulfilled tick →
  let dbName := field listener "db_name" in
  let key := js_to_string (field listener "_id") in
  let resumed := joined E (pushed_by E dbName (results page)) tick
                   (observe (dispatch_trace dbName (results page)) w) in
  let run := _processBatchOfChanges E listener w in
  run.1 = Return (listener, truthy (pending page))
  ∧ store resumed = during_batch E (store w)
  ∧ (truthy (field listener "dirty_at") = false →
       run.2 = with_store
                 (getMergeUpsert (upsert_races E)
                    (lastSeqDoc (field listener "_id") (last_seq page))) resumed
       ∧ stored_last_seq run.2 key = last_seq page)
  ∧ (truthy (field listener "dirty_at") = true →
       run.2 = resumed
       ∧ stored_last_seq run.2 key = stored_last_seq resumed key).
Proof.
  intros Hfetch Hok Hjoin dbName key resumed run. subst run.
  rewrite (_processBatchOfChanges_eq E listener page w Hfetch).
  rewrite (_processChanges_eq E listener page w Hok).
  rewrite _waitForRequests_eq, Hjoin. fold dbName resumed.
  split_and!; [done | done | |].
  - intros ->. simpl. split; [done |]. apply stored_last_seq_advanced.
  - by intros ->.
Qed.

(** A batch on the sample page with every request succeeding. *)
Lemma last_seq_advances_unless_listener_has_dirty_at_witness :
  let E := Sample.collab Sample.all_succeed 3 id in
  let listener := Sample.listener 0 in
  let run := _processBatchOfChanges E listener (Sample.world listener) in
  run.1 = Return (listener, true)
  ∧ stored_last_seq run.2 "spiegel_cl_a" = JStr "3".
Proof.
  intros E listener run.
  destruct (last_seq_advances_unless_listener_has_dirty_at
              E listener Sample.page 1 (Sample.world listener))
    as (Hval & _ & Hadv & _).
  - reflexivity.
  - intros c _. reflexivity.
  - reflexivity.
  - split; [exact Hval |]. exact (proj2 (Hadv eq_refl)).
Defined.

(** Against C3 as stated: while the batch waits for its outbound operations
    another process claims database [a] through the claim protocol, which
    re-dirties the locked record (new revision, [dirty] set, [updated_at]
    refreshed, no [dirty_at]); every outbound operation succeeds; and the
    stored [last_seq] moves from 1 to the page's cursor 3 all the same. *)
Lemma redirtied_during_batch_last_seq_still_advances :
  let E := Sample.collab Sample.all_succeed 3 Sample.claim_a in
  let listener := Sample.listener 0 in
  let w := Sample.world listener in
  let run := _processBatchOfChanges E listener w in
  (∀ r, r ∈ pushed_by E (JStr "a") (results Sample.page) → rejection r = None)
  ∧ (λ d, (field d "_rev", field d "dirty", field d "updated_at",
           field d "dirty_at", field d "last_seq"))
      <$> during_batch E (store w) !! "spiegel_cl_a"
    = Some (JNum 5, JBool true, JStr "T1001", JUndefined, JStr "1")
  ∧ stored_rev (store w) "spiegel_cl_a" = JNum 4
  ∧ returned run.1 = Some (listener, true)
  ∧ stored_last_seq w "spiegel_cl_a" = JStr "1"
  ∧ stored_last_seq run.2 "spiegel_cl_a" = JStr "3"
  ∧ stored_last_seq run.2 "spiegel_cl_a" ≠ stored_last_seq w "spiegel_cl_a".
Proof.
  split_and!; try (vm_compute; done).
  intros r Hr. vm_compute in Hr.
  repeat (apply elem_of_cons in Hr as [-> | Hr]; [done |]).
  by apply elem_of_nil in Hr.
Qed.

(** ** The batch engine: failed outbound operations *)

(** C2: the code against the claim and against its own comment.  The request
    of change 2 of 3 fails with an API-request error.  On a listener that has
    not failed before, the failure is reported, the retry scheduler sets
    [dirty_at] and the stored [last_seq] stays at 1.  On a listener whose
    three retries are used up (limit 3) the failure is reported and the retry
    scheduler runs, but it only clears the counter and sets no [dirty_at], so
    the guard on [dirty_at] lets the batch go on: the stored [last_seq] moves
    from 1 to the page's cursor 3, past the change whose request failed. *)
Theorem api_failure_at_retry_limit_advances_last_seq :
  let E := Sample.collab Sample.second_request_fails 3 id in
  let before := Sample.listener 0 in
  let ok := _processBatchOfChanges E before (Sample.world before) in
  let listener := Sample.listener 3 in
  let w := Sample.world listener in
  let run := _processBatchOfChanges E listener w in
  (∃ r, r ∈ pushed_by E (JStr "a") (results Sample.page)
        ∧ rejection r = Some Sample.apiError
        ∧ err_class Sample.apiError = ApiRequestError)
  ∧ (hasReachedRetryLimit E (retries_of before) = false
     ∧ reported ok.2 = [Sample.apiError]
     ∧ (λ p, (field p.1 "retries", field p.1 "dirty_at")) <$> returned ok.1
       = Some (JNum 1, JStr "T6000")
     ∧ stored_last_seq ok.2 "spiegel_cl_a" = JStr "1")
  ∧ hasReachedRetryLimit E (retries_of listener) = true
  ∧ (λ p, (field p.1 "retries", field p.1 "dirty_at")) <$> returned run.1
    = Some (JNum 0, JUndefined)
  ∧ reported run.2 = [Sample.apiError]
  ∧ soiled run.2 = []
  ∧ stored_last_seq w "spiegel_cl_a" = JStr "1"
  ∧ stored_last_seq run.2 "spiegel_cl_a" = JStr "3"
  ∧ stored_last_seq run.2 "spiegel_cl_a" ≠ stored_last_seq w "spiegel_cl_a".
Proof.
  split_and!; try (vm_compute; done).
  exists (mkRequest 1 (Some Sample.apiError)). split_and!; [| done | done].
  vm_compute. apply elem_of_cons. right. apply elem_of_cons. by left.
Qed.

(** ** The batch engine: what the caller gets *)

Lemma _processBatchOfChangesLogError_eq E listener w :
  _processBatchOfChangesLogError E listener w
  = match _processBatchOfChanges E listener w with
    | (Return _, w') => (Return JUndefined, w')
    | (Throw err, w') =>
        if decide (err_class err = DatabaseNotFoundError) then (Throw err, w')
        else (Return (JBool true), with_reported (λ es, es ++ [err]) w')
    end.
Proof.
  unfold _processBatchOfChangesLogError, try_catch, bind, ret.
  destruct (_processBatchOfChanges E listener w) as [[v | err] w']; [done |].
  by case_decide.
Qed.

(** X4: when the batch completes, its own value is [!!pending] of the page
    the feed served for the listener. *)
Lemma _processBatchOfChanges_value E listener w listener' more w' :
  _processBatchOfChanges E listener w = (Return (listener', more), w') →
  ∃ page, fetched E listener = inr page ∧ more = truthy (pending page).
Proof.
  intros Hrun. destruct (fetched E listener) as [err | page] eqn:Hfetch.
  - unfold _processBatchOfChanges, _changesForListener, bind in Hrun.
    unfold fetched in Hfetch. rewrite Hfetch in Hrun.
    by case_decide.
  - exists page. split; [done |].
    rewrite (_processBatchOfChanges_eq E listener page w Hfetch) in Hrun.
    destruct (_processChanges E listener page w) as [[l | err] w'']; [| done].
    by injection Hrun as _ <- _.
Qed.

Lemma _processBatchOfChanges_fetch_fails E listener err w :
  fetched E listener = inl err →
  _processBatchOfChanges E listener w
  = (Throw (if decide (err_error err = JStr "not_found")
            then newDatabaseNotFoundError (field listener "db_name")
            else err), w).
Proof.
  intros Hfetch. unfold _processBatchOfChanges, _changesForListener, bind.
  unfold fetched in Hfetch. rewrite Hfetch. by case_decide.
Qed.

(** C8: failures of a batch, as the code has it.  A fetch that fails with
    [not_found] makes the batch throw a [DatabaseNotFoundError] for the
    listener's database, which [_processBatchOfChangesLogError] throws on to
    its caller without logging it.  Of the other errors, from the fetch, from
    a dispatch or from the join of the outbound operations, the caller is
    thrown every one that is a [DatabaseNotFoundError]; every one that is not
    is handed to [_onError] and answered with [true].  A rejection the join
    observes is also logged by the join itself, and when it is an API-request
    failure it goes to the retry scheduler instead of being thrown. *)
Theorem not_found_is_thrown_other_failures_are_logged
    (E : Collab) (listener : Doc) (w : World) :
  let dbName := field listener "db_name" in
  let logged err w' := with_reported (λ es, es ++ [err]) w' in
  let caller_sees err w' :=
    if decide (err_class err = DatabaseNotFoundError) then (Throw err, w')
    else (Return (JBool true), logged err w') in
  (∀ err, fetched E listener = inl err → err_error err = JStr "not_found" →
     _processBatchOfChangesLogError E listener w
     = (Throw (newDatabaseNotFoundError dbName), w)
     ∧ err_class (newDatabaseNotFoundError dbName) = DatabaseNotFoundError)
  ∧ (∀ err, fetched E listener = inl err → err_error err ≠ JStr "not_found" →
       _processBatchOfChangesLogError E listener w = caller_sees err w)
  ∧ (∀ page before c after err,
       fetched E listener = inr page →
       results page = before ++ c :: after →
       dispatches_succeed E dbName before →
       failure (process E c dbName) = Some err →
       _processBatchOfChangesLogError E listener w
       = caller_sees err
           (observe (dispatch_trace dbName before ++ [EvDispatch c dbName]) w))
  ∧ (∀ page tick err,
       fetched E listener = inr page →
       dispatches_succeed E dbName (results page) →
       Promise_all (pushed_by E dbName (results page)) = FirstRejected tick err →
       let failed :=
         logged err
           (joined E (pushed_by E dbName (results page)) tick
              (observe (dispatch_trace dbName (results page)) w)) in
       if decide (err_class err = ApiRequestError)
       then _processChanges E listener page w = _scheduleRetry E listener failed
       else _processBatchOfChangesLogError E listener w = caller_sees err failed)
  ∧ (∀ err w', _processBatchOfChanges E listener w = (Throw err, w') →
       _processBatchOfChangesLogError E listener w = caller_sees err w').
Proof.
  intros dbName logged caller_sees. subst dbName logged caller_sees.
  cbv beta. split_and!.
  - intros err Hfetch Hnf. split; [| done].
    rewrite _processBatchOfChangesLogError_eq.
    rewrite (_processBatchOfChanges_fetch_fails E listener err w Hfetch).
    destruct (decide (err_error err = JStr "not_found")); [| done].
    by rewrite decide_True.
  - intros err Hfetch Hnf.
    rewrite _processBatchOfChangesLogError_eq.
    rewrite (_processBatchOfChanges_fetch_fails E listener err w Hfetch).
    by destruct (decide (err_error err = JStr "not_found")).
  - intros page before c after err Hfetch Hres Hok Hfail.
    rewrite _processBatchOfChangesLogError_eq.
    rewrite (_processBatchOfChanges_eq E listener page w Hfetch).
    unfold _processChanges, bind. rewrite Hres.
    by rewrite (chain_fails E _ before c after err [] w Hok Hfail).
  - intros page tick err Hfetch Hok Hjoin failed. subst failed.
    destruct (decide (err_class err = ApiRequestError)) as [Hapi | Hapi].
    + rewrite (_processChanges_eq E listener page w Hok).
      rewrite _waitForRequests_eq, Hjoin. cbv zeta. by rewrite decide_True.
    + rewrite _processBatchOfChangesLogError_eq.
      rewrite (_processBatchOfChanges_eq E listener page w Hfetch).
      rewrite (_processChanges_eq E listener page w Hok).
      rewrite _waitForRequests_eq, Hjoin. cbv zeta.
      by rewrite (decide_False (P := err_class err = ApiRequestError)).
  - intros err w' Hrun. rewrite _processBatchOfChangesLogError_eq.
    by rewrite Hrun.
Qed.

(** Against C8 as stated: a failure during dispatch that is neither logged
    nor answered with [true].  The change processor finds the database of
    the second change gone and throws a [DatabaseNotFoundError]; the fetch
    has succeeded; the batch throws the error on, nothing is handed to
    [_onError], and the caller of [_process] is thrown the error. *)
Lemma database_not_found_from_a_dispatch_is_thrown_not_logged :
  let E := Sample.collab Sample2.second_dispatch_finds_no_database 3 id in
  let listener := Sample.listener 0 in
  let run := _process E listener (Sample.world listener) in
  fetched E listener = inr Sample.page
  ∧ failure (process E Sample.c2 (JStr "a")) = Some Sample2.gone
  ∧ err_error Sample2.gone ≠ JStr "not_found"
  ∧ run.1 = Throw Sample2.gone
  ∧ run.1 ≠ Return (JBool true)
  ∧ reported run.2 = []
  ∧ observed run.2
    = [EvDispatch Sample.c1 (JStr "a"); EvHandedOff Sample.c1;
       EvDispatch Sample.c2 (JStr "a")].
Proof. by vm_compute. Qed.

(** A vanished database, a broken connection to the feed and a dispatch that
    fails, seen from the caller of [_process]. *)
Example batch_failures_seen_by_the_caller :
  let listener := Sample.listener 0 in
  let gone := _process (Sample.feed_fails Sample.notFound) listener
                (Sample.world listener) in
  let broken := _process (Sample.feed_fails Sample.socketError) listener
                  (Sample.world listener) in
  let failed := _process (Sample.collab Sample.second_dispatch_fails 3 id)
                  listener (Sample.world listener) in
  (gone.1, reported gone.2)
  = (Throw (mkErr DatabaseNotFoundError JUndefined "a"), [])
  ∧ (broken.1, reported broken.2) = (Return (JBool true), [Sample.socketError])
  ∧ (failed.1, reported failed.2, observed failed.2,
     stored_last_seq failed.2 "spiegel_cl_a")
    = (Return (JBool true), [Sample.socketError],
       [EvDispatch Sample.c1 (JStr "a"); EvHandedOff Sample.c1;
        EvDispatch Sample.c2 (JStr "a")],
       JStr "1").
Proof. vm_compute. done. Qed.

(** C1 at a page with more to come: the feed reports [pending = true] and
    every dispatch and every outbound operation succeeds.  The batch itself
    computes [true], but [_processBatchOfChangesLogError] does not return the
    value of the batch it awaits, so it and [_process] yield [undefined],
    which the caller reads as no more batches. *)
Theorem pending_page_value_is_dropped :
  let E := Sample.collab Sample.all_succeed 3 id in
  let listener := Sample.listener 0 in
  let w := Sample.world listener in
  fetched E listener = inr Sample.page
  ∧ pending Sample.page = JBool true
  ∧ Promise_all (pushed_by E (JStr "a") (results Sample.page)) = AllFulfilled 1
  ∧ (_processBatchOfChanges E listener w).1 = Return (listener, true)
  ∧ (_processBatchOfChangesLogError E listener w).1 = Return JUndefined
  ∧ (_process E listener w).1 = Return JUndefined
  ∧ truthy JUndefined = false.
Proof. vm_compute. done. Qed.

(** The same for every batch that completes: the caller gets [undefined]
    whether or not more pages are pending. *)
Lemma completed_batch_yields_undefined E listener w listener' more w' :
  _processBatchOfChanges E listener w = (Return (listener', more), w') →
  _processBatchOfChangesLogError E listener w = (Return JUndefined, w').
Proof. intros Hrun. by rewrite _processBatchOfChangesLogError_eq, Hrun. Qed.

(** C7 at a page of three changes whose second request fails after one tick
    while the other two take nine.  The dispatcher sees the three changes in
    the order of the page, each handed off before the next; the join then
    resumes the batch at tick 1, when the first rejection arrives, with two
    requests still in flight, and the batch goes on to schedule the retry and
    return. *)
Theorem join_resumes_at_first_rejection :
  let E := Sample.collab Sample.second_request_fails 3 id in
  let listener := Sample.listener 0 in
  let w := Sample.world listener in
  let slow := mkRequest 9 None in
  let requests := [slow; mkRequest 1 (Some Sample.apiError); slow] in
  pushed_by E (JStr "a") (results Sample.page) = requests
  ∧ observed (_processChanges E listener Sample.page w).2
    = [EvDispatch Sample.c1 (JStr "a"); EvHandedOff Sample.c1;
       EvDispatch Sample.c2 (JStr "a"); EvHandedOff Sample.c2;
       EvDispatch Sample.c3 (JStr "a"); EvHandedOff Sample.c3;
       EvJoin requests; EvResume 1]
  ∧ is_Some (returned (_processChanges E listener Sample.page w).1)
  ∧ is_Some (returned (_processBatchOfChanges E listener w).1)
  ∧ slow ∈ requests ∧ (1 < settles slow)%nat.
Proof.
  intros E listener w slow requests. split_and!.
  - by vm_compute.
  - by vm_compute.
  - vm_compute. by eexists.
  - vm_compute. by eexists.
  - apply elem_of_cons. by left.
  - simpl. lia.
Qed.

(** X5: dispatch in arrival order, for every page.  When no dispatch fails, the
    dispatcher sees exactly the changes of the page, in the order of the
    page and one at a time, and the join is over every request they pushed;
    when all of those are fulfilled the batch resumes no earlier than the
    last of them settles. *)
Lemma dispatch_is_sequential_and_join_is_over_all E listener page w :
  dispatches_succeed E (field listener "db_name") (results page) →
  let dbName := field listener "db_name" in
  let requests := pushed_by E dbName (results page) in
  ∃ tail,
    observed (_processChanges E listener page w).2
    = observed w ++ dispatch_trace dbName (results page)
      ++ EvJoin requests :: tail
    ∧ ∀ tick, Promise_all requests = AllFulfilled tick →
        tail = [EvResume tick]
        ∧ ∀ r, r ∈ requests → (settles r ≤ tick)%nat.
Proof.
  intros Hok dbName requests.
  rewrite (_processChanges_eq E listener page w Hok), _waitForRequests_eq.
  fold dbName requests.
  pose proof (Promise_all_spec requests) as Hspec.
  destruct (Promise_all requests) as [tick | tick err].
  - exists [EvResume tick]. split.
    + simpl. by rewrite <- !app_assoc.
    + intros tick' [= <-]. split; [done |]. intros r Hr. by apply Hspec.
  - cbv zeta. case_decide.
    + rewrite _scheduleRetry_eq. cbv zeta.
      destruct (hasReachedRetryLimit E (retries_of listener));
        [| destruct (date_after _ _)]; simpl;
        (exists [EvResume tick]; split; [by rewrite <- !app_assoc | done]).
    + simpl. exists [EvResume tick]. split; [by rewrite <- !app_assoc | done].
Qed.

(** * Further properties *)

(** ** Identifiers *)

Lemma append_inj_r (p a b : string) : String.append p a = String.append p b → a = b.
Proof. induction p as [| c p IH]; simpl; [done |]. intros [= H]. by apply IH. Qed.

(** X1: listener ids.  The id made for a database name is never empty, so a
    document that has been given one counts as existing; it starts with the
    letter [s] whatever the name, so the name of a reserved database such as
    [_users] yields an id that is not reserved; and two names that differ get
    ids that differ. *)
Theorem listener_ids_are_usable_and_distinct :
  (∀ dbName, truthy (_toId dbName) = true)
  ∧ (∀ dbName, ∃ rest, js_to_string (_toId dbName) = String.append "s" rest)
  ∧ (∀ a b, _toId (JStr a) = _toId (JStr b) → a = b).
Proof.
  split_and!.
  - done.
  - intros dbName. by eexists.
  - intros a b H. apply (append_inj_r _idPrefix).
    unfold _toId in H. simpl js_to_string in H. congruence.
Qed.

(** ** What escapes a batch *)

(** What [_processBatchOfChangesLogError] can do: it yields [undefined]
    when the batch completes and [true] when the batch throws, and the only
    errors it throws are [DatabaseNotFoundError]s, which it reports to
    nobody. *)
Theorem log_error_yields_undefined_or_true_or_not_found
    (E : Collab) (listener : Doc) (w : World) :
  match _processBatchOfChangesLogError E listener w,
        _processBatchOfChanges E listener w with
  | (Return v, w'), (Return _, w0) => v = JUndefined ∧ w' = w0
  | (Return v, w'), (Throw err, w0) =>
      v = JBool true ∧ err_class err ≠ DatabaseNotFoundError
      ∧ w' = with_reported (λ es, es ++ [err]) w0
  | (Throw err, w'), (Throw err0, w0) =>
      err = err0 ∧ err_class err = DatabaseNotFoundError ∧ w' = w0
  | (Throw _, _), (Return _, _) => False
  end.
Proof.
  rewrite _processBatchOfChangesLogError_eq.
  destruct (_processBatchOfChanges E listener w) as [[v | err] w0]; [done |].
  by case_decide.
Qed.

(** X2: the name of the database is decoded before anything else.  When
    [decodeURIComponent] rejects the name, [_process] throws its error with
    nothing fetched, dispatched, reported or written; when [_process] throws
    at all, the error is either that one or a [DatabaseNotFoundError]; and a
    listener without a name is run as it is. *)
Theorem process_decodes_the_name_first
    (E : Collab) (listener : Doc) (w : World) :
  let name := field listener "db_name" in
  (∀ err, truthy name = true →
     decodeURIComponent E (js_to_string name) = inl err →
     _process E listener w = (Throw err, w))
  ∧ (∀ dbName, truthy name = true →
       decodeURIComponent E (js_to_string name) = inr dbName →
       _process E listener w
       = _processBatchOfChangesLogError E (<["db_name" := JStr dbName]> listener) w)
  ∧ (truthy name = false →
       _process E listener w = _processBatchOfChangesLogError E listener w)
  ∧ (∀ err w', _process E listener w = (Throw err, w') →
       err_class err = DatabaseNotFoundError
       ∨ (w' = w ∧ truthy name = true
          ∧ decodeURIComponent E (js_to_string name) = inl err)).
Proof.
  intros name. subst name. unfold _process. split_and!.
  - by intros err -> ->.
  - by intros dbName -> ->.
  - by intros ->.
  - intros err w'.
    assert (Hlog : ∀ l, _processBatchOfChangesLogError E l w = (Throw err, w') →
              err_class err = DatabaseNotFoundError).
    { intros l Hl. rewrite _processBatchOfChangesLogError_eq in Hl.
      destruct (_processBatchOfChanges E l w) as [[v | err0] w0]; [done |].
      case_decide; [| done]. by injection Hl as <- _. }
    destruct (truthy (field listener "db_name")); [| by left; eapply Hlog].
    destruct (decodeURIComponent E _) as [e | s].
    + intros [= <- <-]. by right.
    + left. by eapply Hlog.
Qed.

(** A name that cannot be decoded, seen from the caller. *)
Example undecodable_name_stops_the_batch :
  let listener := Sample.listener 0 in
  let run := _process Sample2.undecodable listener (Sample.world listener) in
  run = (Throw Sample2.uriError, Sample.world listener).
Proof. by vm_compute. Qed.

(** ** What a batch leaves behind *)

Lemma chain_world E dbName changes : ∀ requests w,
  ∃ es, (chain E dbName changes requests w).2 = observe es w.
Proof.
  induction changes as [| c changes IH]; intros requests w; simpl.
  - exists []. by rewrite observe_nil.
  - unfold bind, modify. simpl.
    destruct (failure (process E c dbName)) as [err |].
    + by eexists.
    + destruct (IH (requests ++ pushed (process E c dbName))
                  (observe [EvHandedOff c] (observe [EvDispatch c dbName] w)))
        as [es Hes].
      rewrite Hes, !observe_observe. by eexists.
Qed.

Lemma _processChanges_cases E listener page w :
  let dbName := field listener "db_name" in
  (∃ es err, _processChanges E listener page w = (Throw err, observe es w))
  ∨ (∃ es requests,
       chain E dbName (results page) [] w = (Return requests, observe es w)
       ∧ _processChanges E listener page w
         = _waitForRequests E requests listener (observe es w)).
Proof.
  intros dbName. unfold _processChanges, bind. fold dbName.
  destruct (chain_world E dbName (results page) [] w) as [es Hes].
  destruct (chain E dbName (results page) [] w) as [[requests | err] w1].
  - simpl in Hes. subst w1. right. by exists es, requests.
  - simpl in Hes. subst w1. left. by exists es, err.
Qed.

(** X3: a batch that throws has written nothing.  Whatever makes
    [_processBatchOfChanges] throw (the fetch, a dispatch, an outbound
    operation failing with an error that is not an API-request failure, or a
    retry that cannot be scheduled), the store is as it was, up to what other
    processes wrote while the batch was waiting, and no wakeup has been
    queued. *)
Theorem failed_batch_writes_nothing
    (E : Collab) (listener : Doc) (w w' : World) (err : Err) :
  _processBatchOfChanges E listener w = (Throw err, w') →
  (store w' = store w ∨ store w' = during_batch E (store w))
  ∧ soiled w' = soiled w.
Proof.
  intros Hrun. destruct (fetched E listener) as [e | page] eqn:Hfetch.
  - rewrite (_processBatchOfChanges_fetch_fails E listener e w Hfetch) in Hrun.
    injection Hrun as _ <-. by split; [left |].
  - rewrite (_processBatchOfChanges_eq E listener page w Hfetch) in Hrun.
    destruct (_processChanges_cases E listener page w)
      as [(es & e & Hch) | (es & requests & _ & Hch)]; rewrite Hch in Hrun.
    + injection Hrun as _ <-. by split; [left |].
    + rewrite _waitForRequests_eq in Hrun.
      destruct (Promise_all requests) as [tick | tick e]; [done |].
      cbv zeta in Hrun. case_decide.
      * rewrite _scheduleRetry_eq in Hrun. cbv zeta in Hrun.
        destruct (hasReachedRetryLimit E (retries_of listener)); [done |].
        destruct (date_after _ _); [done |].
        injection Hrun as _ <-. by split; [right |].
      * injection Hrun as _ <-. by split; [right |].
Qed.

(** A dispatch that fails in the middle of the page. *)
Lemma failed_batch_writes_nothing_witness :
  let E := Sample.collab Sample.second_dispatch_fails 3 id in
  let listener := Sample.listener 0 in
  let w := Sample.world listener in
  (_processBatchOfChanges E listener w).1 = Throw Sample.socketError
  ∧ (store (_processBatchOfChanges E listener w).2 = store w
     ∨ store (_processBatchOfChanges E listener w).2 = during_batch E (store w)).
Proof.
  intros E listener w. split; [reflexivity |].
  exact (proj1 (failed_batch_writes_nothing E listener w
                  (_processBatchOfChanges E listener w).2 Sample.socketError
                  eq_refl)).
Defined.

(** X4's witness: the sample page has more to come. *)
Lemma _processBatchOfChanges_value_witness :
  let E := Sample.collab Sample.all_succeed 3 id in
  let listener := Sample.listener 0 in
  ∃ page, fetched E listener = inr page ∧ true = truthy (pending page).
Proof.
  intros E listener.
  exact (_processBatchOfChanges_value E listener (Sample.world listener)
           listener true
           (_processBatchOfChanges E listener (Sample.world listener)).2
           eq_refl).
Defined.

(** X5's witness: the three changes of the sample page, all handed off. *)
Lemma dispatch_is_sequential_and_join_is_over_all_witness :
  let E := Sample.collab Sample.all_succeed 3 id in
  let listener := Sample.listener 0 in
  let w := Sample.world listener in
  ∃ tail,
    observed (_processChanges E listener Sample.page w).2
    = observed w
      ++ dispatch_trace (field listener "db_name") (results Sample.page)
      ++ EvJoin (pushed_by E (field listener "db_name") (results Sample.page))
         :: tail.
Proof.
  intros E listener w.
  destruct (dispatch_is_sequential_and_join_is_over_all E listener Sample.page w)
    as [tail [Htrace _]].
  - intros c _. reflexivity.
  - exists tail. exact Htrace.
Defined.

(** X6: a dispatch that fails ends the page.  The changes before it have been
    handed to the dispatcher in order, the failing one has been dispatched,
    none behind it is, the requests pushed so far are not joined, and the
    error is thrown with nothing reported or written. *)
Theorem failing_dispatch_ends_the_page
    (E : Collab) (listener : Doc) (page : Page) (w : World)
    (before after : list Change) (c : Change) (err : Err) :
  results page = before ++ c :: after →
  dispatches_succeed E (field listener "db_name") before →
  failure (process E c (field listener "db_name")) = Some err →
  let dbName := field listener "db_name" in
  let seen := dispatch_trace dbName before ++ [EvDispatch c dbName] in
  _processChanges E listener page w = (Throw err, observe seen w)
  ∧ (∀ requests, EvJoin requests ∉ seen)
  ∧ (∀ c', c' ∉ before → c' ≠ c → EvDispatch c' dbName ∉ seen)
  ∧ store (observe seen w) = store w
  ∧ reported (observe seen w) = reported w.
Proof.
  intros Hres Hok Hfail dbName seen. split_and!; [| | | done | done].
  - unfold _processChanges, bind. rewrite Hres.
    by rewrite (chain_fails E _ before c after err [] w Hok Hfail).
  - intros requests [Hin | Hin]%elem_of_app.
    + unfold dispatch_trace in Hin. apply list_elem_of_bind in Hin as (c' & Hin & _).
      repeat (apply elem_of_cons in Hin as [? | Hin]; [done |]).
      by apply elem_of_nil in Hin.
    + apply list_elem_of_singleton in Hin. done.
  - intros c' Hbefore Hc [Hin | Hin]%elem_of_app.
    + unfold dispatch_trace in Hin.
      apply list_elem_of_bind in Hin as (c'' & Hin & Hc'').
      apply elem_of_cons in Hin as [[= <-] | Hin]; [done |].
      apply elem_of_cons in Hin as [? | Hin]; [done |].
      by apply elem_of_nil in Hin.
    + apply list_elem_of_singleton in Hin. congruence.
Qed.

Lemma failing_dispatch_ends_the_page_witness :
  let E := Sample.collab Sample.second_dispatch_fails 3 id in
  let listener := Sample.listener 0 in
  let w := Sample.world listener in
  _processChanges E listener Sample.page w
  = (Throw Sample.socketError,
     observe [EvDispatch Sample.c1 (JStr "a"); EvHandedOff Sample.c1;
              EvDispatch Sample.c2 (JStr "a")] w).
Proof.
  intros E listener w.
  exact (proj1 (failing_dispatch_ends_the_page E listener Sample.page w
                  [Sample.c1] [Sample.c3] Sample.c2 Sample.socketError
                  eq_refl
                  ltac:(intros c Hc; apply list_elem_of_singleton in Hc;
                        subst c; reflexivity)
                  eq_refl)).
Defined.

(** X7: a page without changes.  Nothing is dispatched and the join, over no
    requests, resumes at once; the batch reports no error, leaves the
    listener as it was and returns [!!pending]; and unless the listener
    carries a [dirty_at] the stored record is moved to the cursor of the
    page. *)
Theorem empty_page_only_moves_the_cursor
    (E : Collab) (listener : Doc) (page : Page) (w : World) :
  fetched E listener = inr page →
  results page = [] →
  let run := _processBatchOfChanges E listener w in
  run.1 = Return (listener, truthy (pending page))
  ∧ observed run.2 = observed w ++ [EvJoin []; EvResume 0]
  ∧ reported run.2 = reported w
  ∧ soiled run.2 = soiled w
  ∧ (truthy (field listener "dirty_at") = false →
       stored_last_seq run.2 (target listener) = last_seq page)
  ∧ (truthy (field listener "dirty_at") = true →
       store run.2 = during_batch E (store w)).
Proof.
  intros Hfetch Hres run. subst run.
  assert (Hch : _processChanges E listener page w
                = (Return listener, joined E [] 0 w)).
  { rewrite _processChanges_eq
      by (intros c Hc; rewrite Hres in Hc; by apply elem_of_nil in Hc).
    rewrite Hres. unfold pushed_by, dispatch_trace. simpl.
    by rewrite observe_nil, _waitForRequests_eq. }
  rewrite (_processBatchOfChanges_eq E listener page w Hfetch), Hch.
  assert (Hobs : observed (joined E [] 0 w) = observed w ++ [EvJoin []; EvResume 0])
    by (simpl; by rewrite <- app_assoc).
  destruct (truthy (field listener "dirty_at")); simpl.
  - by split_and!.
  - split_and!; [done | done | done | done | | done].
    intros _. apply stored_last_seq_advanced.
Qed.

Lemma empty_page_only_moves_the_cursor_witness :
  let listener := Sample.listener 0 in
  let run := _processBatchOfChanges Sample2.idle listener (Sample.world listener) in
  run.1 = Return (listener, false)
  ∧ stored_last_seq run.2 "spiegel_cl_a" = JStr "7".
Proof.
  intros listener run.
  destruct (empty_page_only_moves_the_cursor Sample2.idle listener
              (mkPage [] (JStr "7") (JBool false)) (Sample.world listener)
              eq_refl eq_refl)
    as (Hval & _ & _ & _ & Hmove & _).
  split; [exact Hval | exact (Hmove eq_refl)].
Defined.

Lemma _scheduleRetry_frame E item w key :
  key ≠ target item →
  store (_scheduleRetry E item w).2 !! key = store w !! key.
Proof.
  intros Hkey. rewrite _scheduleRetry_eq. cbv zeta.
  destruct (hasReachedRetryLimit E (retries_of item)); [done |].
  destruct (date_after _ _); [| done].
  simpl. by rewrite lookup_insert_ne.
Qed.

Lemma _scheduleRetry_id E item w :
  (∃ item', (_scheduleRetry E item w).1 = Return item'
            ∧ field item' "_id" = field item "_id")
  ∨ ∃ err, (_scheduleRetry E item w).1 = Throw err.
Proof.
  rewrite _scheduleRetry_eq. cbv zeta.
  destruct (hasReachedRetryLimit E (retries_of item)); simpl.
  - left. eexists. split; [done |].
    rewrite field_delete, decide_False by done. by rewrite field_insert.
  - destruct (date_after _ _); simpl; [left | right; by eexists].
    eexists. split; [done |]. by rewrite !field_insert.
Qed.

Lemma _updateLastSeq_frame_quiet id lastSeq st key :
  key ≠ js_to_string id →
  getMergeUpsert [] (lastSeqDoc id lastSeq) st !! key = st !! key.
Proof.
  intros Hkey.
  destruct (lastSeqDoc_lookup id lastSeq) as (Hid & _).
  by apply (getMergeUpsert_frame_quiet _ id Hid).
Qed.

(** X8: a batch writes to its own listener's record only.  When the
    merge-upsert meets no racing edit, every other record is after the batch
    as it was before, or as other processes left it while the batch was
    waiting, whether the batch returns or throws. *)
Theorem batch_writes_only_its_own_record
    (E : Collab) (listener : Doc) (w : World) (key : string) :
  upsert_races E = [] →
  key ≠ target listener →
  let after := store (_processBatchOfChanges E listener w).2 in
  after !! key = store w !! key
  ∨ after !! key = during_batch E (store w) !! key.
Proof.
  intros Hquiet Hkey after. subst after.
  destruct (fetched E listener) as [e | page] eqn:Hfetch.
  { rewrite (_processBatchOfChanges_fetch_fails E listener e w Hfetch). by left. }
  rewrite (_processBatchOfChanges_eq E listener page w Hfetch).
  destruct (_processChanges_cases E listener page w)
    as [(es & e & Hch) | (es & requests & _ & Hch)]; rewrite Hch; [by left |].
  rewrite _waitForRequests_eq, Hquiet.
  destruct (Promise_all requests) as [tick | tick e].
  - right. destruct (truthy (field listener "dirty_at")); [done |].
    cbn -[getMergeUpsert]. by rewrite _updateLastSeq_frame_quiet.
  - cbv zeta. case_decide; [| by right]. right.
    set (w1 := with_reported _ _).
    pose proof (_scheduleRetry_frame E listener w1 key Hkey) as Hframe.
    destruct (_scheduleRetry_id E listener w1) as [(item' & Hret & Hid) | (e' & Hret)];
      destruct (_scheduleRetry E listener w1) as [o w2];
      simpl in Hret, Hframe; subst o; [| done].
    destruct (truthy (field item' "dirty_at")); [done |].
    cbn -[getMergeUpsert].
    rewrite _updateLastSeq_frame_quiet by (by rewrite Hid). done.
Qed.

(** The record of another database during a batch on [a]. *)
Lemma batch_writes_only_its_own_record_witness :
  let E := Sample.collab Sample.second_request_fails 3 id in
  let listener := Sample.listener 0 in
  let w := mkWorld 1000 (<["spiegel_cl_a" := listener]> Sample2.shelf) [] [] [] in
  let after := store (_processBatchOfChanges E listener w).2 in
  after !! "_design/change_listeners_by_db_name"
    = store w !! "_design/change_listeners_by_db_name"
  ∨ after !! "_design/change_listeners_by_db_name"
    = during_batch E (store w) !! "_design/change_listeners_by_db_name".
Proof.
  intros E listener w.
  apply (batch_writes_only_its_own_record E listener w
           "_design/change_listeners_by_db_name"); [reflexivity | discriminate].
Defined.

(** ** Failures in a row *)

Lemma retries_of_insert (n : Z) (item : Doc) :
  retries_of (<["retries" := JNum n]> item) = JNum n.
Proof.
  unfold retries_of. rewrite field_insert, decide_True by done. simpl.
  destruct (decide (n = 0)) as [-> | Hn]; [done |].
  by rewrite (proj2 (Z.eqb_neq n 0) Hn).
Qed.

Lemma retry_times_counts E k : ∀ item w n,
  retries_of item = JNum n →
  0 ≤ n → n + Z.of_nat k < 2 ^ 53 →
  (∀ m, n ≤ m < n + Z.of_nat k → hasReachedRetryLimit E (JNum m) = false) →
  (∀ m, n ≤ m < n + Z.of_nat k →
     is_Some (date_after (now w) (getDelaySecs E (JNum m)))) →
  ∃ item' w',
    retry_times E k item w = (Return item', w')
    ∧ retries_of item' = JNum (n + Z.of_nat k)
    ∧ length (soiled w') = (length (soiled w) + k)%nat
    ∧ (∀ f, f ≠ "retries" → f ≠ "dirty_at" → item' !! f = item !! f)
    ∧ reported w' = reported w.
Proof.
  induction k as [| k IH]; intros item w n Hn Hpos Hbound Hlimit Hdate.
  - exists item, w. simpl. unfold ret.
    by rewrite Z.add_0_r, Nat.add_0_r.
  - simpl. unfold bind. rewrite _scheduleRetry_eq. cbv zeta.
    rewrite Hn, (Hlimit n) by lia.
    destruct (Hdate n) as [v Hv]; [lia |]. rewrite Hv.
    unfold js_plus_one. rewrite (round53_small (n + 1)) by lia.
    set (item1 := <["retries" := JNum (n + 1)]> _).
    set (w1 := with_soiled _ _).
    destruct (IH item1 w1 (n + 1))
      as (item' & w' & Hrun & Hcount & Hsoiled & Hframe & Hrep).
    { apply retries_of_insert. }
    { lia. }
    { lia. }
    { intros m Hm. apply Hlimit. lia. }
    { intros m Hm. apply Hdate. lia. }
    exists item', w'. split_and!; [done | | | |].
    + rewrite Hcount. f_equal. lia.
    + rewrite Hsoiled. subst w1. simpl. rewrite length_app. simpl. lia.
    + intros f H1 H2. rewrite (Hframe f H1 H2). subst item1.
      rewrite lookup_insert_ne by done. by rewrite lookup_insert_ne.
    + by rewrite Hrep.
Qed.

Lemma retry_times_last E j : ∀ item w,
  retry_times E (S j) item w
  = match retry_times E j item w with
    | (Return item', w') => _scheduleRetry E item' w'
    | (Throw err, w') => (Throw err, w')
    end.
Proof.
  induction j as [| j IH]; intros item w.
  - cbn [retry_times]. unfold bind, ret.
    by destruct (_scheduleRetry E item w) as [[] ?].
  - change (retry_times E (S (S j)) item w)
      with (bind (_scheduleRetry E item) (retry_times E (S j)) w).
    change (retry_times E (S j) item w)
      with (bind (_scheduleRetry E item) (retry_times E j) w).
    unfold bind.
    destruct (_scheduleRetry E item w) as [[item1 | err] w1]; [apply IH | done].
Qed.

(** X9: failures in a row.  Starting from a listener that has not failed,
    [k] failures handed to the retry scheduler, while the backoff policy has
    not reached its limit and each of its delays gives a valid date, leave
    the retry count at [k], with one wakeup queued per failure and every
    field but [retries] and [dirty_at] as it was; if the policy reports the
    limit at [k], the next failure takes the count back to 0 and queues
    nothing. *)
Theorem consecutive_failures_count_up_then_reset
    (E : Collab) (k : nat) (item : Doc) (w : World) :
  truthy (field item "retries") = false →
  Z.of_nat k < 2 ^ 53 →
  (∀ m, 0 ≤ m < Z.of_nat k → hasReachedRetryLimit E (JNum m) = false) →
  (∀ m, 0 ≤ m < Z.of_nat k →
     is_Some (date_after (now w) (getDelaySecs E (JNum m)))) →
  ∃ item' w',
    retry_times E k item w = (Return item', w')
    ∧ retries_of item' = JNum (Z.of_nat k)
    ∧ length (soiled w') = (length (soiled w) + k)%nat
    ∧ (∀ f, f ≠ "retries" → f ≠ "dirty_at" → item' !! f = item !! f)
    ∧ (hasReachedRetryLimit E (JNum (Z.of_nat k)) = true →
       ∃ item'', retry_times E (S k) item w = (Return item'', w')
                 ∧ retries_of item'' = JNum 0).
Proof.
  intros Hfresh Hbound Hlimit Hdate.
  destruct (retry_times_counts E k item w 0)
    as (item' & w' & Hrun & Hcount & Hsoiled & Hframe & _).
  { unfold retries_of. by rewrite Hfresh. }
  { lia. }
  { lia. }
  { intros m Hm. apply Hlimit. lia. }
  { intros m Hm. apply Hdate. lia. }
  exists item', w'. rewrite Z.add_0_l in Hcount. split_and!; [done.. |].
  intros Hreached.
  rewrite retry_times_last, Hrun, _scheduleRetry_eq. cbv zeta.
  rewrite Hcount, Hreached. eexists. split; [done |].
  unfold retries_of. rewrite field_delete, decide_False by done.
  by rewrite field_insert, decide_True.
Qed.

(** Three failures under a limit of three, and the fourth. *)
Lemma consecutive_failures_count_up_then_reset_witness :
  let E := Sample.collab Sample.all_succeed 3 id in
  let item := Sample.listener 0 in
  ∃ item' w',
    retry_times E 3 item (Sample.world item) = (Return item', w')
    ∧ retries_of item' = JNum 3
    ∧ length (soiled w') = 3%nat
    ∧ ∃ item'', retry_times E 4 item (Sample.world item) = (Return item'', w')
                ∧ retries_of item'' = JNum 0.
Proof.
  intros E item.
  destruct (consecutive_failures_count_up_then_reset E 3 item (Sample.world item))
    as (item' & w' & Hrun & Hcount & Hsoiled & _ & Hreset).
  - reflexivity.
  - reflexivity.
  - intros m Hm. unfold E. simpl. apply bool_decide_eq_false. lia.
  - intros m Hm. unfold E. simpl. by eexists.
  - exists item', w'. split; [exact Hrun |]. split; [exact Hcount |].
    split; [exact Hsoiled |]. apply Hreset. reflexivity.
Defined.

(** ** The claim protocol on any store *)

Lemma elem_of_viewArray d keys (st : Store) :
  d ∈ viewArray keys st
  ↔ ∃ k key, k ∈ keys ∧ st !! key = Some d ∧ emitted_under k d = true.
Proof.
  unfold viewArray. rewrite list_elem_of_bind. split.
  - intros (k & Hd & Hk). apply list_elem_of_filter in Hd as [Hem Hd].
    apply list_elem_of_fmap in Hd as ([key d'] & -> & Hd).
    apply elem_of_map_to_list in Hd. by exists k, key.
  - intros (k & key & Hk & Hd & Hem). exists k. split; [| done].
    apply list_elem_of_filter. split; [done |].
    apply list_elem_of_fmap. exists (key, d). split; [done |].
    by apply elem_of_map_to_list.
Qed.

Lemma emitted_under_db_key n d : emitted_under n d = true → db_key d = n.
Proof.
  unfold emitted_under, db_key.
  intros [_ Hname%bool_decide_eq_true]%andb_true_iff. by rewrite Hname.
Qed.

Lemma dirtyOrCreate_one_db_name E t s :
  field (dirtyOrCreate_one E t s) "db_name" = field s "db_name".
Proof.
  unfold dirtyOrCreate_one, _setUpdatedAt.
  destruct (truthy (field s "_id")); by rewrite !field_insert.
Qed.

Lemma dirtyOrCreate_one_dirty E t s :
  field (dirtyOrCreate_one E t s) "dirty" = JBool true.
Proof.
  unfold dirtyOrCreate_one, _setUpdatedAt.
  destruct (truthy (field s "_id")); by rewrite !field_insert.
Qed.

Lemma selected_db_key dbNames (st : Store) s :
  s ∈ cleanLockedOrMissing dbNames (viewArray dbNames st) → db_key s ∈ dbNames.
Proof.
  rewrite cleanLockedOrMissing_eq, elem_of_app. intros [Hs | Hs].
  - apply list_elem_of_filter in Hs as [_ Hs].
    apply elem_of_viewArray in Hs as (k & key & Hk & _ & Hem).
    by rewrite (emitted_under_db_key k s Hem).
  - apply list_elem_of_fmap in Hs as (n & -> & Hn).
    destruct (still_missing_spec (viewArray dbNames st) (flip dbNames)
                (NoDup_flip dbNames)) as [_ Hin].
    apply Hin in Hn as [Hn _]. apply (proj1 (elem_of_flip _ _)) in Hn.
    exact Hn.
Qed.

Lemma attempt_names_spec E race dbNames names w :
  (_attemptToDirtyIfCleanOrLocked E race dbNames w).1 = Return (Some names) →
  NoDup names ∧ ∀ n, n ∈ names → n ∈ dbNames.
Proof.
  rewrite _attemptToDirtyIfCleanOrLocked_eq. cbv zeta.
  case_bool_decide; [| done].
  destruct (collect_conflicts _ 0 _ []) as [names' | e] eqn:Hrun; [| done].
  simpl. intros [= <-].
  destruct (collect_conflicts_spec _ _ _ _ _ Hrun (NoDup_nil_2)) as [Hnd Hin].
  split; [done |]. intros n Hn. apply Hin in Hn as [Hn | (j & l & r & _ & Hl & _ & <-)].
  { by apply elem_of_nil in Hn. }
  apply list_elem_of_lookup_2 in Hl.
  apply list_elem_of_fmap in Hl as (s & -> & Hs).
  unfold db_key. rewrite dirtyOrCreate_one_db_name.
  by apply (selected_db_key dbNames (store w)).
Qed.


(** X10: the recursion only narrows.  The names an attempt reports as
    conflicted are names it was asked for, each once, whatever the store
    holds and whatever other processes write in between; so every recursive
    call of [dirtyIfCleanOrLocked] works on names of the original call. *)
Theorem conflicted_names_are_requested_names
    (E : Collab) (race : Store → Store) (dbNames names : list string)
    (w : World) :
  (_attemptToDirtyIfCleanOrLocked E race dbNames w).1 = Return (Some names) →
  NoDup names ∧ ∀ n, n ∈ names → n ∈ dbNames.
Proof. apply attempt_names_spec. Qed.

(** Two processes after the same clean record. *)
Lemma conflicted_names_are_requested_names_witness :
  let E := Sample.collab Sample.all_succeed 3 id in
  let w := Sample.world (<["locked_at" := JNull]> Sample.locked_clean) in
  NoDup ["a"] ∧ ∀ n, n ∈ ["a"] → n ∈ ["a"; "b"].
Proof.
  intros E w.
  exact (conflicted_names_are_requested_names E Sample.claim_a ["a"; "b"] ["a"] w
           eq_refl).
Defined.

(** X11: nothing to dirty.  When no requested name is without a record and
    every record fetched is dirty and not locked (in particular when no name
    is requested), [dirtyIfCleanOrLocked] sends nothing to the store, does
    not call itself and returns. *)
Theorem nothing_to_dirty_writes_nothing
    (E : Collab) (fuel : nat) (races : list (Store → Store))
    (dbNames : list string) (w : World) :
  (∀ n, n ∈ dbNames → ∃ l, l ∈ viewArray dbNames (store w) ∧ db_key l = n) →
  (∀ l, l ∈ viewArray dbNames (store w) →
        truthy (field l "dirty") = true ∧ truthy (field l "locked_at") = false) →
  dirtyIfCleanOrLocked E (S fuel) races dbNames w
  = (Return (Some tt), with_store (hd id races) w).
Proof.
  intros Hall Hdirty.
  assert (Hnone : cleanLockedOrMissing dbNames (viewArray dbNames (store w)) = []).
  { rewrite cleanLockedOrMissing_eq.
    destruct (still_missing_spec (viewArray dbNames (store w)) (flip dbNames)
                (NoDup_flip dbNames)) as [_ Hin].
    assert (Hfilter : filter (λ l, cleanOrLocked l = true)
                        (viewArray dbNames (store w)) = []).
    { apply elem_of_nil_inv. intros l [Hl Hin']%list_elem_of_filter.
      destruct (Hdirty l Hin') as [Hd Hl']. unfold cleanOrLocked in Hl.
      by rewrite Hd, Hl' in Hl. }
    assert (Hmissing : still_missing (flip dbNames) (viewArray dbNames (store w)) = []).
    { apply elem_of_nil_inv. intros n [Hn Hno]%Hin.
      apply (proj1 (elem_of_flip _ _)) in Hn.
      destruct (Hall n Hn) as (l & Hl & Hkey).
      by apply (Hno l). }
    by rewrite Hfilter, Hmissing. }
  cbn [dirtyIfCleanOrLocked]. unfold bind.
  rewrite _attemptToDirtyIfCleanOrLocked_eq. cbv zeta. rewrite Hnone. done.
Qed.

(** The listener of [a] is already dirty and not locked when [a] is claimed
    again. *)
Lemma nothing_to_dirty_writes_nothing_witness :
  let E := Sample.collab Sample.all_succeed 3 id in
  let w := mkWorld 1000 Sample2.queue [] [] [] in
  viewArray ["a"] (store w) = [Sample2.queued_a]
  ∧ dirtyIfCleanOrLocked E 1 [] ["a"] w = (Return (Some tt), w).
Proof.
  intros E w.
  assert (Hview : viewArray ["a"] (store w) = [Sample2.queued_a])
    by (by vm_compute).
  split; [exact Hview |].
  apply (nothing_to_dirty_writes_nothing E 0 [] ["a"] w).
  - intros n Hn. apply list_elem_of_singleton in Hn as ->.
    exists Sample2.queued_a. rewrite Hview.
    split; [apply elem_of_cons; by left | reflexivity].
  - intros l Hl. rewrite Hview in Hl.
    apply list_elem_of_singleton in Hl as ->. split; reflexivity.
Defined.

Lemma bulkCreateOrUpdate_cons d docs st :
  (bulkCreateOrUpdate (d :: docs) st).2
  = (bulkCreateOrUpdate docs (put d st).2).2.
Proof.
  cbn [bulkCreateOrUpdate]. destruct (put d st) as [item st1].
  cbn [snd]. by destruct (bulkCreateOrUpdate docs st1).
Qed.

Lemma put_lookup d st key :
  (put d st).2 !! key = st !! key
  ∨ (target d = key
     ∧ (put d st).2 !! key
       = Some (<["_rev" := next_rev (stored_rev st key)]> d)).
Proof.
  unfold put. fold (target d). case_decide as Hrev; simpl; [| by left].
  destruct (decide (target d = key)) as [<- | Hkey].
  - right. split; [done |]. apply lookup_insert_eq.
  - left. by rewrite lookup_insert_ne.
Qed.

(** A property of a stored record that every document written to it has
    survives a bulk write. *)
Lemma bulkCreateOrUpdate_keeps (P : Doc → Prop) key docs : ∀ st d0,
  (∀ x r, x ∈ docs → target x = key → P (<["_rev" := r]> x)) →
  st !! key = Some d0 → P d0 →
  ∃ d', (bulkCreateOrUpdate docs st).2 !! key = Some d' ∧ P d'.
Proof.
  induction docs as [| x docs IH]; intros st d0 Hdocs Hd0 HP.
  - by exists d0.
  - rewrite bulkCreateOrUpdate_cons.
    assert (Hrest : ∀ x' r, x' ∈ docs → target x' = key → P (<["_rev" := r]> x'))
      by (intros x' r Hx'; apply Hdocs, elem_of_cons; by right).
    destruct (put_lookup x st key) as [Hsame | [Hkey Hnew]].
    + apply (IH _ d0); [done | by rewrite Hsame | done].
    + eapply IH; [done | exact Hnew |].
      apply Hdocs; [apply elem_of_cons; by left | done].
Qed.

(** The first document of a bulk write that goes to a record and carries the
    record's revision is accepted. *)
Lemma bulkCreateOrUpdate_writes (P : Doc → Prop) key docs : ∀ st,
  (∀ x r, x ∈ docs → target x = key → P (<["_rev" := r]> x)) →
  (∀ x, x ∈ docs → target x = key → field x "_rev" = stored_rev st key) →
  (∃ x, x ∈ docs ∧ target x = key) →
  ∃ d', (bulkCreateOrUpdate docs st).2 !! key = Some d' ∧ P d'.
Proof.
  induction docs as [| x docs IH]; intros st Hdocs Hrev (x0 & Hx0 & Hkey0).
  { by apply elem_of_nil in Hx0. }
  rewrite bulkCreateOrUpdate_cons.
  assert (Hrest : ∀ x' r, x' ∈ docs → target x' = key → P (<["_rev" := r]> x'))
    by (intros x' r Hx'; apply Hdocs, elem_of_cons; by right).
  destruct (decide (target x = key)) as [Hkey | Hkey].
  - assert (Hput : (put x st).2 !! key
                   = Some (<["_rev" := next_rev (stored_rev st key)]> x)).
    { rewrite put_accepted.
      - simpl. fold (target x). rewrite Hkey. apply lookup_insert_eq.
      - fold (target x). rewrite Hkey. apply Hrev; [apply elem_of_cons; by left | done]. }
    eapply bulkCreateOrUpdate_keeps; [done | exact Hput |].
    apply Hdocs; [apply elem_of_cons; by left | done].
  - assert (Hsame : (put x st).2 !! key = st !! key) by by apply put_frame.
    apply IH; [done | |].
    + intros x' Hx' Hkey'. unfold stored_rev. rewrite Hsame.
      apply Hrev; [apply elem_of_cons; by right | done].
    + apply elem_of_cons in Hx0 as [-> | Hx0]; [done |]. by exists x0.
Qed.

Lemma _attemptToDirtyIfCleanOrLocked_store E race dbNames w :
  store (_attemptToDirtyIfCleanOrLocked E race dbNames w).2
  = (bulkCreateOrUpdate
       (dirtyOrCreate_one E (now w)
          <$> cleanLockedOrMissing dbNames (viewArray dbNames (store w)))
       (race (store w))).2.
Proof.
  rewrite _attemptToDirtyIfCleanOrLocked_eq. cbv zeta.
  case_bool_decide as Hlen.
  - by destruct (collect_conflicts _ _ _ _).
  - destruct (cleanLockedOrMissing _ _); [done | simpl in Hlen; lia].
Qed.

Lemma attempt_keeps_records E race dbNames w key d :
  race (store w) !! key = Some d →
  ∃ d', store (_attemptToDirtyIfCleanOrLocked E race dbNames w).2 !! key = Some d'
        ∧ (truthy (field d "dirty") = true → truthy (field d' "dirty") = true).
Proof.
  intros Hd. rewrite _attemptToDirtyIfCleanOrLocked_store.
  apply (bulkCreateOrUpdate_keeps
           (λ d', truthy (field d "dirty") = true → truthy (field d' "dirty") = true)
           key _ _ d); [| done | done].
  intros x r (s & -> & _)%list_elem_of_fmap _ _.
  rewrite field_insert, decide_False by done.
  by rewrite dirtyOrCreate_one_dirty.
Qed.

(** X12: the claim protocol only adds.  Run without other writers, to any
    depth and on any store, [dirtyIfCleanOrLocked] removes no record and
    clears no dirty flag: a record that was there is still there, and dirty
    if it was. *)
Theorem claim_never_deletes_or_cleans
    (E : Collab) (fuel : nat) (dbNames : list string) (w : World)
    (key : string) (d : Doc) :
  store w !! key = Some d →
  ∃ d', store (dirtyIfCleanOrLocked E fuel [] dbNames w).2 !! key = Some d'
        ∧ (truthy (field d "dirty") = true → truthy (field d' "dirty") = true).
Proof.
  revert dbNames w d. induction fuel as [| fuel IH]; intros dbNames w d Hd.
  - by exists d.
  - cbn [dirtyIfCleanOrLocked hd tl]. unfold bind.
    destruct (attempt_keeps_records E id dbNames w key d Hd) as (d1 & Hd1 & Hdirty1).
    destruct (_attemptToDirtyIfCleanOrLocked E id dbNames w)
      as [[[[| name names] |] | e] w1]; simpl in Hd1;
      try (by exists d1).
    destruct (IH (name :: names) w1 d1 Hd1) as (d' & Hd' & Hdirty').
    exists d'. split; [done |]. auto.
Qed.

(** The dirty record of [a] under a claim for [a] and [b]. *)
Lemma claim_never_deletes_or_cleans_witness :
  let E := Sample.collab Sample.all_succeed 3 id in
  let w := Sample.world (Sample.listener 0) in
  ∃ d', store (dirtyIfCleanOrLocked E 2 [] ["a"; "b"] w).2 !! "spiegel_cl_a"
        = Some d'
        ∧ (truthy (field (Sample.listener 0) "dirty") = true →
           truthy (field d' "dirty") = true).
Proof.
  intros E w.
  exact (claim_never_deletes_or_cleans E 2 ["a"; "b"] w "spiegel_cl_a"
           (Sample.listener 0) eq_refl).
Defined.

(** ** The claim protocol on a store of listeners *)

Local Abbreviation key_of n := (String.append _idPrefix n).

Lemma key_of_inj a b : key_of a = key_of b → a = b.
Proof. apply append_inj_r. Qed.

Lemma emitted_under_ext n (d d' : Doc) :
  d' !! "type" = d !! "type" → d' !! "db_name" = d !! "db_name" →
  emitted_under n d' = emitted_under n d.
Proof. intros Ht Hn. unfold emitted_under, field. by rewrite Ht, Hn. Qed.

Lemma emitted_under_unique n m d :
  emitted_under n d = true → emitted_under m d = true → n = m.
Proof.
  intros Hn%emitted_under_db_key Hm%emitted_under_db_key. congruence.
Qed.

Lemma NoDup_values (st : Store) :
  listener_store st → NoDup (map_to_list st).*2.
Proof.
  intros Hwf. apply NoDup_fmap_2_strong; [| apply NoDup_map_to_list].
  intros [k1 d1] [k2 d2] H1%elem_of_map_to_list H2%elem_of_map_to_list Heq.
  simpl in Heq. subst d2. f_equal.
  pose proof (filed_under_id st Hwf k1 d1 H1) as Hid1.
  pose proof (filed_under_id st Hwf k2 d1 H2) as Hid2. congruence.
Qed.

Lemma NoDup_viewArray keys (st : Store) :
  listener_store st → NoDup keys → NoDup (viewArray keys st).
Proof.
  intros Hwf Hkeys. unfold viewArray. apply NoDup_bind; [| | done].
  - intros k1 k2 d _ _ [H1 _]%list_elem_of_filter [H2 _]%list_elem_of_filter.
    by apply (emitted_under_unique k1 k2 d).
  - intros k _. apply NoDup_filter, NoDup_values, Hwf.
Qed.

(** The listeners fetched from a store of listeners are its records under
    the ids of the requested names. *)
Lemma elem_of_viewArray_wf keys (st : Store) d :
  listener_store st →
  d ∈ viewArray keys st
  ↔ ∃ k, k ∈ keys ∧ st !! key_of k = Some d.
Proof.
  intros Hwf. rewrite elem_of_viewArray. split.
  - intros (k & key & Hk & Hd & Hem). exists k. split; [done |].
    by rewrite <- (listener_id st Hwf key d k Hd Hem).
  - intros (k & Hk & Hd). exists k, (key_of k). split_and!; [done | done |].
    by apply (id_listener st Hwf).
Qed.

(** What is written for a selected listener, on a store of listeners. *)
Lemma written_spec E t dbNames (st : Store) s :
  listener_store st →
  s ∈ cleanLockedOrMissing dbNames (viewArray dbNames st) →
  let x := dirtyOrCreate_one E t s in
  field x "_id" = JStr (key_of (db_key s))
  ∧ db_key s ∈ dbNames
  ∧ emitted_under (db_key s) x = true
  ∧ field x "dirty" = JBool true
  ∧ field x "_rev" = stored_rev st (key_of (db_key s))
  ∧ (∀ d, st !! key_of (db_key s) = Some d →
       ∀ f, ¬ claim_field f → x !! f = d !! f).
Proof.
  intros Hwf Hs x. subst x.
  pose proof (selected_db_key dbNames st s Hs) as Hname.
  rewrite cleanLockedOrMissing_eq, elem_of_app in Hs. destruct Hs as [Hs | Hs].
  - apply list_elem_of_filter in Hs as [_ Hs].
    apply (elem_of_viewArray_wf dbNames st s Hwf) in Hs as (k & Hk & Hd).
    pose proof (id_listener st Hwf k s Hd) as Hem.
    rewrite (emitted_under_db_key k s Hem).
    pose proof (filed_under_id st Hwf _ s Hd) as Hid.
    assert (Hx : dirtyOrCreate_one E t s
                 = <["updated_at" := JStr (toISOString E t)]>
                     (<["dirty" := JBool true]> s)).
    { unfold dirtyOrCreate_one. by rewrite Hid. }
    rewrite Hx. split_and!.
    + by rewrite !field_insert.
    + by rewrite <- (emitted_under_db_key k s Hem).
    + rewrite <- Hem. apply emitted_under_ext; by rewrite !lookup_insert_ne.
    + by rewrite !field_insert.
    + rewrite !field_insert. simpl. unfold stored_rev. by rewrite Hd.
    + intros d Hd' f Hf. rewrite Hd in Hd'. injection Hd' as <-.
      rewrite lookup_insert_ne by (intros <-; apply Hf; by right; left).
      by rewrite lookup_insert_ne by (intros <-; apply Hf; by left).
  - apply list_elem_of_fmap in Hs as (n & -> & Hn).
    change (db_key (missing_doc n)) with n in *.
    destruct (still_missing_spec (viewArray dbNames st) (flip dbNames)
                (NoDup_flip dbNames)) as [_ Hin].
    apply Hin in Hn as [Hn Hno]. apply (proj1 (elem_of_flip _ _)) in Hn.
    assert (Hnone : st !! key_of n = None).
    { destruct (st !! key_of n) as [d |] eqn:Hd; [| done]. exfalso.
      apply (Hno d).
      - apply (elem_of_viewArray_wf dbNames st d Hwf). by exists n.
      - apply emitted_under_db_key. by apply (id_listener st Hwf). }
    rewrite dirtyOrCreate_one_missing. split_and!.
    + done.
    + done.
    + unfold emitted_under. rewrite !field_insert. simpl.
      by rewrite bool_decide_eq_true_2.
    + done.
    + unfold stored_rev. by rewrite Hnone.
    + intros d Hd. by rewrite Hnone in Hd.
Qed.

Lemma written_target E t dbNames (st : Store) s :
  listener_store st →
  s ∈ cleanLockedOrMissing dbNames (viewArray dbNames st) →
  target (dirtyOrCreate_one E t s) = key_of (db_key s).
Proof.
  intros Hwf Hs. destruct (written_spec E t dbNames st s Hwf Hs) as (Hid & _).
  unfold target. by rewrite Hid.
Qed.

Lemma insert_listener_store x (st : Store) n :
  listener_store st →
  field x "_id" = JStr (key_of n) → emitted_under n x = true →
  field x "_rev" ≠ JUndefined →
  listener_store (<[key_of n := x]> st).
Proof.
  intros Hwf Hid Hem Hrev. split.
  - intros key d. rewrite lookup_insert. case_decide as Hkey.
    + intros [= <-]. by subst key.
    + apply (filed_under_id st Hwf).
  - intros key d. rewrite lookup_insert. case_decide as Hkey.
    + by intros [= <-].
    + apply (has_revision st Hwf).
  - intros key d m. rewrite lookup_insert. case_decide as Hkey.
    + intros [= <-] Hm. by rewrite (emitted_under_unique m n x Hm Hem).
    + apply (listener_id st Hwf).
  - intros m d. rewrite lookup_insert. case_decide as Hkey.
    + intros [= <-]. apply key_of_inj in Hkey. by subst m.
    + apply (id_listener st Hwf).
Qed.

Lemma put_listener_store x (st : Store) n :
  listener_store st →
  field x "_id" = JStr (key_of n) → emitted_under n x = true →
  listener_store (put x st).2.
Proof.
  intros Hwf Hid Hem. unfold put. rewrite Hid. cbn [js_to_string].
  case_decide as Hrev; [| done]. cbn [snd].
  apply insert_listener_store; [done | | |].
  - by rewrite field_insert.
  - rewrite <- Hem. apply emitted_under_ext; by rewrite lookup_insert_ne.
  - rewrite field_insert, decide_True by done.
    by destruct (stored_rev st (key_of n)).
Qed.

Lemma bulkCreateOrUpdate_listener_store docs : ∀ st : Store,
  listener_store st →
  (∀ x, x ∈ docs →
        ∃ n, field x "_id" = JStr (key_of n) ∧ emitted_under n x = true) →
  listener_store (bulkCreateOrUpdate docs st).2.
Proof.
  induction docs as [| x docs IH]; intros st Hwf Hdocs; [done |].
  rewrite bulkCreateOrUpdate_cons. apply IH.
  - destruct (Hdocs x) as (n & Hid & Hem); [apply elem_of_cons; by left |].
    by apply (put_listener_store x st n).
  - intros x' Hx'. apply Hdocs, elem_of_cons. by right.
Qed.

Lemma bulkCreateOrUpdate_origin docs : ∀ (st : Store) key,
  is_Some ((bulkCreateOrUpdate docs st).2 !! key) →
  is_Some (st !! key) ∨ ∃ x, x ∈ docs ∧ target x = key.
Proof.
  induction docs as [| x docs IH]; intros st key Hkey; [by left |].
  rewrite bulkCreateOrUpdate_cons in Hkey.
  destruct (IH _ _ Hkey) as [Hput | (x' & Hx' & Htarget)].
  - destruct (put_lookup x st key) as [Hsame | [Htarget _]].
    + left. by rewrite <- Hsame.
    + right. exists x. split; [apply elem_of_cons; by left | done].
  - right. exists x'. split; [apply elem_of_cons; by right | done].
Qed.

Lemma bulkCreateOrUpdate_all_accepted docs : ∀ st : Store,
  NoDup (target <$> docs) →
  (∀ x, x ∈ docs → field x "_rev" = stored_rev st (target x)) →
  Forall (λ item, isConflictError item = false) (bulkCreateOrUpdate docs st).1.
Proof.
  induction docs as [| x docs IH]; intros st Hnd Hrev; [by constructor |].
  rewrite fmap_cons in Hnd. apply NoDup_cons in Hnd as [Hx Hnd].
  cbn [bulkCreateOrUpdate].
  rewrite put_accepted by (apply Hrev, elem_of_cons; by left).
  fold (target x).
  set (st1 := <[target x := _]> st).
  specialize (IH st1 Hnd).
  destruct (bulkCreateOrUpdate docs st1) as [items st2]. cbn [fst] in *.
  constructor; [done |]. apply IH.
  intros x' Hx'. unfold stored_rev, st1.
  rewrite lookup_insert_ne.
  - apply Hrev, elem_of_cons. by right.
  - intros Heq. apply Hx. rewrite Heq. by apply list_elem_of_fmap_2.
Qed.

Lemma collect_conflicts_none listeners response : ∀ i acc,
  Forall (λ item, isConflictError item = false) response →
  collect_conflicts listeners i response acc = Return acc.
Proof.
  induction response as [| doc response IH]; intros i acc Hall; [done |].
  apply Forall_cons in Hall as [Hdoc Hall]. simpl. rewrite Hdoc. by apply IH.
Qed.

Lemma selected_names_NoDup dbNames (st : Store) :
  listener_store st → NoDup dbNames →
  NoDup (db_key <$> cleanLockedOrMissing dbNames (viewArray dbNames st)).
Proof.
  intros Hwf Hnd. rewrite cleanLockedOrMissing_eq, fmap_app.
  destruct (still_missing_spec (viewArray dbNames st) (flip dbNames)
              (NoDup_flip dbNames)) as [Hmissing Hin].
  apply NoDup_app. split_and!.
  - apply NoDup_fmap_2_strong;
      [| apply NoDup_filter, NoDup_viewArray; done].
    intros d1 d2 [_ H1]%list_elem_of_filter [_ H2]%list_elem_of_filter Heq.
    apply (elem_of_viewArray_wf dbNames st d1 Hwf) in H1 as (k1 & _ & H1).
    apply (elem_of_viewArray_wf dbNames st d2 Hwf) in H2 as (k2 & _ & H2).
    pose proof (emitted_under_db_key k1 d1 (id_listener st Hwf k1 d1 H1)) as E1.
    pose proof (emitted_under_db_key k2 d2 (id_listener st Hwf k2 d2 H2)) as E2.
    assert (k1 = k2) by congruence. subst k2. congruence.
  - intros n (d & -> & [_ Hd]%list_elem_of_filter)%list_elem_of_fmap
             (x & Hn & (m & -> & Hm)%list_elem_of_fmap)%list_elem_of_fmap.
    change (db_key (missing_doc m)) with m in Hn.
    apply Hin in Hm as [_ Hno]. by apply (Hno d).
  - rewrite <- list_fmap_compose.
    replace (db_key ∘ missing_doc) with (@id string) by done.
    by rewrite list_fmap_id.
Qed.

(** On a store of listeners, names that are all different are dirtied
    without a conflict. *)
Lemma quiet_attempt_no_conflict E dbNames w :
  listener_store (store w) → NoDup dbNames →
  (_attemptToDirtyIfCleanOrLocked E id dbNames w).1 = Return None
  ∨ (_attemptToDirtyIfCleanOrLocked E id dbNames w).1 = Return (Some []).
Proof.
  intros Hwf Hnd. rewrite _attemptToDirtyIfCleanOrLocked_eq. cbv zeta.
  case_bool_decide; [right | by left].
  set (selected := cleanLockedOrMissing dbNames (viewArray dbNames (store w))).
  rewrite collect_conflicts_none; [done |].
  apply bulkCreateOrUpdate_all_accepted.
  - rewrite <- list_fmap_compose.
    rewrite (list_fmap_ext _ ((λ n, key_of n) ∘ db_key) selected).
    + rewrite list_fmap_compose. apply NoDup_fmap_2_strong.
      * intros a b _ _. apply key_of_inj.
      * by apply selected_names_NoDup.
    + intros i s Hs. apply list_elem_of_lookup_2 in Hs. simpl.
      by apply (written_target E (now w) dbNames (store w)).
  - intros x (s & -> & Hs)%list_elem_of_fmap.
    destruct (written_spec E (now w) dbNames (store w) s Hwf Hs) as (_ & _ & _ & _ & Hrev & _).
    by rewrite (written_target E (now w) dbNames (store w) s Hwf Hs).
Qed.

Lemma written_for_name E t dbNames (st : Store) x n r :
  listener_store st →
  x ∈ dirtyOrCreate_one E t
        <$> cleanLockedOrMissing dbNames (viewArray dbNames st) →
  target x = key_of n →
  field x "_rev" = stored_rev st (key_of n)
  ∧ truthy (field (<["_rev" := r]> x) "dirty") = true
  ∧ emitted_under n (<["_rev" := r]> x) = true
  ∧ ∀ d, st !! key_of n = Some d →
      ∀ f, ¬ claim_field f → <["_rev" := r]> x !! f = d !! f.
Proof.
  intros Hwf (s & -> & Hs)%list_elem_of_fmap Htarget.
  rewrite (written_target E t dbNames st s Hwf Hs) in Htarget.
  apply key_of_inj in Htarget. subst n.
  destruct (written_spec E t dbNames st s Hwf Hs)
    as (_ & _ & Hem & Hdirty & Hrev & Hframe).
  split_and!; [done | | |].
  - rewrite field_insert, decide_False by done. by rewrite Hdirty.
  - rewrite <- Hem. apply emitted_under_ext; by rewrite lookup_insert_ne.
  - intros d Hd f Hf.
    rewrite lookup_insert_ne by (intros <-; apply Hf; by right; right).
    by apply Hframe.
Qed.

(** One attempt without other writers, on a store of listeners. *)
Lemma quiet_attempt_spec E dbNames w :
  listener_store (store w) →
  claimed dbNames (store w)
    (store (_attemptToDirtyIfCleanOrLocked E id dbNames w).2).
Proof.
  intros Hwf. rewrite _attemptToDirtyIfCleanOrLocked_store. cbn [id].
  set (selected := cleanLockedOrMissing dbNames (viewArray dbNames (store w))).
  set (written := dirtyOrCreate_one E (now w) <$> selected).
  assert (Hwritten : ∀ x n r, x ∈ written → target x = key_of n →
            field x "_rev" = stored_rev (store w) (key_of n)
            ∧ truthy (field (<["_rev" := r]> x) "dirty") = true
            ∧ emitted_under n (<["_rev" := r]> x) = true
            ∧ ∀ d, store w !! key_of n = Some d →
                ∀ f, ¬ claim_field f → <["_rev" := r]> x !! f = d !! f)
    by (intros x n r; by apply written_for_name).
  split.
  - apply bulkCreateOrUpdate_listener_store; [done |].
    intros x (s & -> & Hs)%list_elem_of_fmap.
    destruct (written_spec E (now w) dbNames (store w) s Hwf Hs) as (Hid & _ & Hem & _).
    by exists (db_key s).
  - intros n Hn.
    set (P := λ d : Doc, truthy (field d "dirty") = true ∧ emitted_under n d = true).
    assert (HP : ∀ x r, x ∈ written → target x = key_of n → P (<["_rev" := r]> x)).
    { intros x r Hx Hkey. destruct (Hwritten x n r Hx Hkey) as (_ & ? & ? & _).
      by split. }
    assert (Hgoal : ∃ d, (bulkCreateOrUpdate written (store w)).2 !! key_of n = Some d
                         ∧ P d).
    { destruct (store w !! key_of n) as [d |] eqn:Hd.
      - pose proof (id_listener _ Hwf n d Hd) as Hem.
        destruct (truthy (field d "dirty")) eqn:Hdirty.
        + by apply (bulkCreateOrUpdate_keeps P (key_of n) written (store w) d).
        + apply (bulkCreateOrUpdate_writes P); [done | |].
          * intros x Hx Hkey. by destruct (Hwritten x n JNull Hx Hkey) as (? & _).
          * assert (Hsel : d ∈ selected).
            { unfold selected. rewrite cleanLockedOrMissing_eq, elem_of_app. left.
              apply list_elem_of_filter. split.
              - unfold cleanOrLocked. by rewrite Hdirty.
              - apply (elem_of_viewArray_wf dbNames _ d Hwf). by exists n. }
            exists (dirtyOrCreate_one E (now w) d). split.
            -- by apply list_elem_of_fmap_2.
            -- rewrite (written_target E (now w) dbNames (store w) d Hwf Hsel).
               by rewrite (emitted_under_db_key n d Hem).
      - apply (bulkCreateOrUpdate_writes P); [done | |].
        + intros x Hx Hkey. by destruct (Hwritten x n JNull Hx Hkey) as (? & _).
        + assert (Hsel : missing_doc n ∈ selected).
          { unfold selected. rewrite cleanLockedOrMissing_eq, elem_of_app. right.
            apply list_elem_of_fmap_2.
            destruct (still_missing_spec (viewArray dbNames (store w)) (flip dbNames)
                        (NoDup_flip dbNames)) as [_ Hin].
            apply Hin. split; [by apply elem_of_flip |].
            intros l Hl Hkey.
            apply (elem_of_viewArray_wf dbNames _ l Hwf) in Hl as (k & _ & Hl).
            pose proof (emitted_under_db_key k l (id_listener _ Hwf k l Hl)) as Hk.
            assert (k = n) by congruence. subst k. congruence. }
          exists (dirtyOrCreate_one E (now w) (missing_doc n)). split.
          * by apply list_elem_of_fmap_2.
          * by rewrite (written_target E (now w) dbNames (store w) _ Hwf Hsel). }
    destruct Hgoal as (d & Hd & Hdirty & Hem). by exists d.
  - intros key d Hd.
    apply (bulkCreateOrUpdate_keeps
             (λ d', (∀ f, ¬ claim_field f → d' !! f = d !! f)
                    ∧ (truthy (field d "dirty") = true
                       → truthy (field d' "dirty") = true))
             key written (store w) d); [| done | done].
    intros x r Hx Hkey.
    assert (Hx' := Hx). apply list_elem_of_fmap in Hx' as (s & -> & Hs).
    pose proof (written_target E (now w) dbNames (store w) s Hwf Hs) as Htarget.
    destruct (Hwritten _ (db_key s) r Hx Htarget) as (_ & Hdirty & _ & Hframe).
    split; [| done]. apply Hframe. by rewrite <- Htarget, Hkey.
  - intros key Hkey.
    apply bulkCreateOrUpdate_origin in Hkey as [Hkey | (x & Hx & Htarget)];
      [by left | right].
    apply list_elem_of_fmap in Hx as (s & -> & Hs).
    exists (db_key s). split.
    + by apply (selected_db_key dbNames (store w)).
    + by rewrite <- (written_target E (now w) dbNames (store w) s Hwf Hs).
Qed.

Lemma claimed_trans dbNames names (st st1 st2 : Store) :
  (∀ n, n ∈ names → n ∈ dbNames) →
  claimed dbNames st st1 → claimed names st1 st2 → claimed dbNames st st2.
Proof.
  intros Hsub H1 H2. split.
  - apply (claimed_store _ _ _ H2).
  - intros n Hn.
    destruct (claimed_dirty _ _ _ H1 n Hn) as (d1 & Hd1 & Hdirty1 & Hem1).
    destruct (claimed_frame _ _ _ H2 _ d1 Hd1) as (d2 & Hd2 & Hframe & Hdirty2).
    exists d2. split_and!; [done | by apply Hdirty2 |].
    rewrite <- Hem1. apply emitted_under_ext; apply Hframe;
      intros [? | [? | ?]]; done.
  - intros key d Hd.
    destruct (claimed_frame _ _ _ H1 key d Hd) as (d1 & Hd1 & Hframe1 & Hdirty1).
    destruct (claimed_frame _ _ _ H2 key d1 Hd1) as (d2 & Hd2 & Hframe2 & Hdirty2).
    exists d2. split_and!; [done | | auto].
    intros f Hf. rewrite (Hframe2 f Hf). by apply Hframe1.
  - intros key Hkey.
    destruct (claimed_new _ _ _ H2 key Hkey) as [Hkey1 | (n & Hn & ->)].
    + apply (claimed_new _ _ _ H1 key Hkey1).
    + right. exists n. split; [by apply Hsub | done].
Qed.

(** Without other writers one round serves names that are all different. *)
Lemma quiet_round_spec E fuel dbNames w :
  listener_store (store w) → NoDup dbNames →
  ∃ w', dirtyIfCleanOrLocked E (S fuel) [] dbNames w = (Return (Some tt), w')
        ∧ claimed dbNames (store w) (store w').
Proof.
  intros Hwf Hnd. cbn [dirtyIfCleanOrLocked hd tl]. unfold bind.
  pose proof (quiet_attempt_spec E dbNames w Hwf) as Hclaimed.
  pose proof (quiet_attempt_no_conflict E dbNames w Hwf Hnd) as Hres.
  destruct (_attemptToDirtyIfCleanOrLocked E id dbNames w) as [r w1].
  simpl in *. destruct Hres as [-> | ->]; by exists w1.
Qed.

(** Without other writers two rounds serve any names. *)
Lemma quiet_run_spec E fuel dbNames w :
  listener_store (store w) →
  ∃ w', dirtyIfCleanOrLocked E (S (S fuel)) [] dbNames w = (Return (Some tt), w')
        ∧ claimed dbNames (store w) (store w').
Proof.
  intros Hwf.
  change (dirtyIfCleanOrLocked E (S (S fuel)) [] dbNames w)
    with (bind (_attemptToDirtyIfCleanOrLocked E id dbNames)
            (λ conflicted,
               match conflicted with
               | Some (name :: names) =>
                   dirtyIfCleanOrLocked E (S fuel) [] (name :: names)
               | _ => ret (Some tt)
               end) w).
  unfold bind.
  pose proof (quiet_attempt_spec E dbNames w Hwf) as Hclaimed.
  pose proof (λ names, attempt_names_spec E id dbNames names w) as Hnames.
  destruct (_attemptToDirtyIfCleanOrLocked_returns E id dbNames w) as [r Hr].
  remember (_attemptToDirtyIfCleanOrLocked E id dbNames w) as a eqn:Ha in *.
  destruct a as [o w1]. simpl in Hr, Hclaimed, Hnames. subst o.
  destruct r as [[| name names] |]; [by exists w1 | | by exists w1].
  destruct (Hnames (name :: names) eq_refl) as [Hnd Hsub].
  destruct (quiet_round_spec E fuel (name :: names) w1
              (claimed_store _ _ _ Hclaimed) Hnd) as (w2 & Hrun & Hclaimed2).
  exists w2. split; [done |].
  by apply (claimed_trans dbNames (name :: names) _ (store w1)).
Qed.

(** X13: the claim protocol converges.  On a store of listeners and without
    other writers, [dirtyIfCleanOrLocked] returns within two rounds, whatever
    names it is given (a name given twice makes the first round conflict with
    itself); afterwards the store is still a store of listeners and every
    requested name has its listener record, dirty. *)
Theorem claim_converges_without_other_writers
    (E : Collab) (fuel : nat) (dbNames : list string) (w : World) :
  listener_store (store w) →
  ∃ w',
    dirtyIfCleanOrLocked E (S (S fuel)) [] dbNames w = (Return (Some tt), w')
    ∧ listener_store (store w')
    ∧ ∀ n, n ∈ dbNames →
        ∃ d, store w' !! String.append "spiegel_cl_" n = Some d
             ∧ field d "db_name" = JStr n
             ∧ field d "type" = JStr "change_listener"
             ∧ truthy (field d "dirty") = true.
Proof.
  intros Hwf. destruct (quiet_run_spec E fuel dbNames w Hwf) as (w' & Hrun & Hclaimed).
  exists w'. split_and!; [done | apply (claimed_store _ _ _ Hclaimed) |].
  intros n Hn.
  destruct (claimed_dirty _ _ _ Hclaimed n Hn) as (d & Hd & Hdirty & Hem).
  exists d. unfold emitted_under in Hem.
  apply andb_true_iff in Hem as [Ht%bool_decide_eq_true Hn'%bool_decide_eq_true].
  by split_and!.
Qed.

(** X14: what a claim changes.  On a store of listeners and without other
    writers, every record that was in the store is still there after
    [dirtyIfCleanOrLocked], with every field but [dirty], [updated_at] and the
    revision as it was, and the only records that are new are listeners of
    requested names. *)
Theorem claim_changes_only_dirty_updated_at_and_revision
    (E : Collab) (fuel : nat) (dbNames : list string) (w : World) :
  listener_store (store w) →
  let after := store (dirtyIfCleanOrLocked E (S (S fuel)) [] dbNames w).2 in
  (∀ key d, store w !! key = Some d →
     ∃ d', after !! key = Some d'
           ∧ ∀ f, f ≠ "dirty" → f ≠ "updated_at" → f ≠ "_rev" →
               d' !! f = d !! f)
  ∧ (∀ key, is_Some (after !! key) →
       is_Some (store w !! key)
       ∨ ∃ n, n ∈ dbNames ∧ key = String.append "spiegel_cl_" n).
Proof.
  intros Hwf after. subst after.
  destruct (quiet_run_spec E fuel dbNames w Hwf) as (w' & Hrun & Hclaimed).
  rewrite Hrun. cbn [snd]. split.
  - intros key d Hd.
    destruct (claimed_frame _ _ _ Hclaimed key d Hd) as (d' & Hd' & Hframe & _).
    exists d'. split; [done |]. intros f H1 H2 H3. apply Hframe.
    by intros [? | [? | ?]].
  - apply (claimed_new _ _ _ Hclaimed).
Qed.

(** X15: claiming twice.  On a store of listeners and without other writers,
    a second [dirtyIfCleanOrLocked] for the same names adds no record to what
    the first left. *)
Theorem claim_twice_adds_nothing
    (E : Collab) (fuel : nat) (dbNames : list string) (w : World) :
  listener_store (store w) →
  let once := (dirtyIfCleanOrLocked E (S (S fuel)) [] dbNames w).2 in
  let twice := (dirtyIfCleanOrLocked E (S (S fuel)) [] dbNames once).2 in
  dom (store twice) = dom (store once).
Proof.
  intros Hwf once twice. subst twice once.
  destruct (quiet_run_spec E fuel dbNames w Hwf) as (w1 & Hrun1 & Hclaimed1).
  rewrite Hrun1. cbn [snd].
  destruct (quiet_run_spec E fuel dbNames w1 (claimed_store _ _ _ Hclaimed1))
    as (w2 & Hrun2 & Hclaimed2).
  rewrite Hrun2. cbn [snd].
  apply set_eq. intros key. rewrite !elem_of_dom. split.
  - intros Hkey.
    destruct (claimed_new _ _ _ Hclaimed2 key Hkey) as [? | (n & Hn & ->)]; [done |].
    destruct (claimed_dirty _ _ _ Hclaimed1 n Hn) as (d & Hd & _). by exists d.
  - intros [d Hd].
    destruct (claimed_frame _ _ _ Hclaimed2 key d Hd) as (d' & Hd' & _). by exists d'.
Qed.

(** X16: names that are all different need one round.  On a store of
    listeners and without other writers, a claim for names without
    repetition meets no conflict: [dirtyIfCleanOrLocked] returns after its
    first attempt, with every requested name's listener dirty. *)
Theorem distinct_names_are_claimed_in_one_round
    (E : Collab) (fuel : nat) (dbNames : list string) (w : World) :
  listener_store (store w) →
  NoDup dbNames →
  ∃ w',
    dirtyIfCleanOrLocked E (S fuel) [] dbNames w = (Return (Some tt), w')
    ∧ store w' = store (_attemptToDirtyIfCleanOrLocked E id dbNames w).2
    ∧ ∀ n, n ∈ dbNames →
        ∃ d, store w' !! String.append "spiegel_cl_" n = Some d
             ∧ truthy (field d "dirty") = true.
Proof.
  intros Hwf Hnd.
  pose proof (quiet_attempt_spec E dbNames w Hwf) as Hclaimed.
  pose proof (quiet_attempt_no_conflict E dbNames w Hwf Hnd) as Hres.
  cbn [dirtyIfCleanOrLocked hd tl]. unfold bind.
  destruct (_attemptToDirtyIfCleanOrLocked E id dbNames w) as [r w1].
  simpl in Hclaimed, Hres. exists w1.
  assert (Hdirty : ∀ n, n ∈ dbNames →
            ∃ d, store w1 !! String.append "spiegel_cl_" n = Some d
                 ∧ truthy (field d "dirty") = true).
  { intros n Hn. destruct (claimed_dirty _ _ _ Hclaimed n Hn) as (d & Hd & ? & _).
    by exists d. }
  by destruct Hres as [-> | ->].
Qed.

Lemma shelf_is_listener_store : listener_store Sample2.shelf.
Proof.
  assert (Hshelf : ∀ key d, Sample2.shelf !! key = Some d →
            (key = "spiegel_cl_a" ∧ d = Sample2.clean_a)
            ∨ (key = "_design/change_listeners_by_db_name" ∧ d = Sample2.design)).
  { intros key d. unfold Sample2.shelf.
    intros [[<- <-] | [_ [<- <-]%lookup_singleton_Some]]%lookup_insert_Some;
      [by left | by right]. }
  split.
  - intros key d [[-> ->] | [-> ->]]%Hshelf; done.
  - intros key d [[-> ->] | [-> ->]]%Hshelf; done.
  - intros key d n [[-> ->] | [-> ->]]%Hshelf Hem; [| done].
    by rewrite <- (emitted_under_db_key n _ Hem).
  - intros n d [[Hkey ->] | [Hkey ->]]%Hshelf; [| done].
    assert (Hn : n = "a") by (apply key_of_inj; exact Hkey).
    by subst n.
Qed.

(** A claim for [a], [b] and [a] again on the sample store: [a] is there and
    clean, [b] is missing, and the repeated [a] makes the first round
    conflict. *)
Lemma claim_converges_without_other_writers_witness :
  let E := Sample.collab Sample.all_succeed 3 id in
  let w := mkWorld 1000 Sample2.shelf [] [] [] in
  (dirtyIfCleanOrLocked E 1 [] ["a"; "b"; "a"] w).1 = Return None
  ∧ ∃ w',
      dirtyIfCleanOrLocked E 2 [] ["a"; "b"; "a"] w = (Return (Some tt), w')
      ∧ ∃ d, store w' !! "spiegel_cl_b" = Some d
             ∧ truthy (field d "dirty") = true.
Proof.
  intros E w. split; [by vm_compute |].
  destruct (claim_converges_without_other_writers E 0 ["a"; "b"; "a"] w
              shelf_is_listener_store) as (w' & Hrun & _ & Hdirty).
  exists w'. split; [exact Hrun |].
  destruct (Hdirty "b") as (d & Hd & _ & _ & Hb).
  - apply elem_of_cons. right. apply elem_of_cons. by left.
  - exists d. split; [exact Hd | exact Hb].
Defined.

Lemma claim_changes_only_dirty_updated_at_and_revision_witness :
  let E := Sample.collab Sample.all_succeed 3 id in
  let w := mkWorld 1000 Sample2.shelf [] [] [] in
  ∃ d', store (dirtyIfCleanOrLocked E 2 [] ["a"; "b"; "a"] w).2 !! "spiegel_cl_a"
        = Some d'
        ∧ d' !! "last_seq" = Sample2.clean_a !! "last_seq".
Proof.
  intros E w.
  destruct (claim_changes_only_dirty_updated_at_and_revision E 0 ["a"; "b"; "a"] w
              shelf_is_listener_store) as [Hframe _].
  destruct (Hframe "spiegel_cl_a" Sample2.clean_a eq_refl) as (d' & Hd' & Hsame).
  exists d'. split; [exact Hd' |]. by apply Hsame.
Defined.

Lemma claim_twice_adds_nothing_witness :
  let E := Sample.collab Sample.all_succeed 3 id in
  let w := mkWorld 1000 Sample2.shelf [] [] [] in
  let once := (dirtyIfCleanOrLocked E 2 [] ["a"; "b"; "a"] w).2 in
  dom (store (dirtyIfCleanOrLocked E 2 [] ["a"; "b"; "a"] once).2)
  = dom (store once).
Proof.
  intros E w.
  exact (claim_twice_adds_nothing E 0 ["a"; "b"; "a"] w shelf_is_listener_store).
Defined.

Lemma distinct_names_are_claimed_in_one_round_witness :
  let E := Sample.collab Sample.all_succeed 3 id in
  let w := mkWorld 1000 Sample2.shelf [] [] [] in
  ∃ w', dirtyIfCleanOrLocked E 1 [] ["a"; "b"] w = (Return (Some tt), w').
Proof.
  intros E w.
  destruct (distinct_names_are_claimed_in_one_round E 0 ["a"; "b"] w
              shelf_is_listener_store) as (w' & Hrun & _).
  - apply NoDup_cons. split; [| apply NoDup_singleton].
    intros Hin. by apply list_elem_of_singleton in Hin.
  - exists w'. exact Hrun.
Defined.

(** ** The claim protocol among other writers *)

Lemma racing_attempt_listener_store E race dbNames w :
  listener_store (store w) → listener_store (race (store w)) →
  listener_store (store (_attemptToDirtyIfCleanOrLocked E race dbNames w).2).
Proof.
  intros Hwf Hrace. rewrite _attemptToDirtyIfCleanOrLocked_store.
  apply bulkCreateOrUpdate_listener_store; [done |].
  intros x (s & -> & Hs)%list_elem_of_fmap.
  destruct (written_spec E (now w) dbNames (store w) s Hwf Hs) as (Hid & _ & Hem & _).
  by exists (db_key s).
Qed.

Lemma racing_run_returns E fuel races : ∀ dbNames w,
  Forall keeps_listener_store races →
  listener_store (store w) →
  ∃ w', dirtyIfCleanOrLocked E (length races + S (S fuel)) races dbNames w
        = (Return (Some tt), w')
        ∧ listener_store (store w').
Proof.
  induction races as [| race races IH]; intros dbNames w Hraces Hwf.
  - destruct (quiet_run_spec E fuel dbNames w Hwf) as (w' & Hrun & Hclaimed).
    exists w'. split; [done | apply (claimed_store _ _ _ Hclaimed)].
  - apply Forall_cons in Hraces as [Hrace Hraces].
    cbn [length Nat.add dirtyIfCleanOrLocked hd tl]. unfold bind.
    pose proof (racing_attempt_listener_store E race dbNames w Hwf (Hrace _ Hwf))
      as Hwf1.
    destruct (_attemptToDirtyIfCleanOrLocked_returns E race dbNames w) as [r Hr].
    destruct (_attemptToDirtyIfCleanOrLocked E race dbNames w) as [o w1].
    simpl in Hr, Hwf1. subst o.
    destruct r as [[| name names] |]; [by exists w1 | | by exists w1].
    by apply IH.
Qed.

(** X17: the claim protocol ends when the other writers do.  On a store of
    listeners, if other processes write during at most [k] attempts (and keep
    the store a store of listeners), [dirtyIfCleanOrLocked] returns within
    [k + 2] rounds without an error, leaving a store of listeners. *)
Theorem claim_ends_when_other_writers_do
    (E : Collab) (fuel : nat) (races : list (Store → Store))
    (dbNames : list string) (w : World) :
  Forall keeps_listener_store races →
  listener_store (store w) →
  ∃ w', dirtyIfCleanOrLocked E (length races + 2 + fuel) races dbNames w
        = (Return (Some tt), w')
        ∧ listener_store (store w').
Proof.
  intros Hraces Hwf.
  replace (length races + 2 + fuel)%nat with (length races + S (S fuel))%nat by lia.
  by apply racing_run_returns.
Qed.

Lemma next_rev_ne r : next_rev r ≠ r.
Proof. destruct r; simpl; try done. intros [= H]. lia. Qed.

Lemma rewrite_listener_eq n (st : Store) d :
  listener_store st → st !! key_of n = Some d →
  rewrite_listener n st
  = <[key_of n := <["_rev" := next_rev (field d "_rev")]> d]> st.
Proof.
  intros Hwf Hd. unfold rewrite_listener, race_write. rewrite Hd. cbn [from_option id].
  pose proof (filed_under_id st Hwf _ d Hd) as Hid.
  rewrite put_accepted; rewrite Hid; cbn [js_to_string].
  - unfold stored_rev. by rewrite Hd.
  - unfold stored_rev. by rewrite Hd.
Qed.

Lemma rewrite_listener_keeps n : keeps_listener_store (rewrite_listener n).
Proof.
  intros st Hwf. unfold rewrite_listener, race_write.
  destruct (st !! key_of n) as [d |] eqn:Hd; [| done]. cbn [from_option id].
  apply (put_listener_store d st n Hwf).
  - apply (filed_under_id st Hwf _ d Hd).
  - apply (id_listener st Hwf n d Hd).
Qed.

Lemma claim_ends_when_other_writers_do_witness :
  let E := Sample.collab Sample.all_succeed 3 id in
  let w := mkWorld 1000 Sample2.shelf [] [] [] in
  ∃ w', dirtyIfCleanOrLocked E 3 [rewrite_listener "a"] ["a"; "b"] w
        = (Return (Some tt), w').
Proof.
  intros E w.
  destruct (claim_ends_when_other_writers_do E 0 [rewrite_listener "a"]
              ["a"; "b"] w) as (w' & Hrun & _).
  - apply Forall_cons. split; [apply rewrite_listener_keeps | apply Forall_nil_2].
  - apply shelf_is_listener_store.
  - exists w'. exact Hrun.
Defined.

Lemma bulkCreateOrUpdate_all_rejected docs : ∀ st : Store,
  (∀ x, x ∈ docs → field x "_rev" ≠ stored_rev st (target x)) →
  bulkCreateOrUpdate docs st
  = ((λ x, ItemError (target x) "conflict") <$> docs, st).
Proof.
  induction docs as [| x docs IH]; intros st Hrev; [done |].
  cbn [bulkCreateOrUpdate].
  rewrite put_rejected by (apply Hrev, elem_of_cons; by left).
  rewrite IH by (intros x' Hx'; apply Hrev, elem_of_cons; by right).
  done.
Qed.

(** An attempt on the locked listener of [n] that another process rewrites
    between the read and the write. *)
Lemma contended_attempt E n dbNames w d :
  listener_store (store w) →
  store w !! key_of n = Some d →
  truthy (field d "locked_at") = true →
  dbNames ≠ [] → (∀ m, m ∈ dbNames → m = n) →
  ∃ name names,
    _attemptToDirtyIfCleanOrLocked E (rewrite_listener n) dbNames w
    = (Return (Some (name :: names)),
       with_store (λ _, rewrite_listener n (store w)) w)
    ∧ ∀ m, m ∈ name :: names → m = n.
Proof.
  intros Hwf Hd Hlocked Hne Hall.
  assert (Hn : n ∈ dbNames).
  { destruct dbNames as [| m ms]; [done |].
    rewrite <- (Hall m) by (apply elem_of_cons; by left).
    apply elem_of_cons. by left. }
  set (selected := cleanLockedOrMissing dbNames (viewArray dbNames (store w))).
  set (written := dirtyOrCreate_one E (now w) <$> selected).
  assert (Hsel : d ∈ selected).
  { unfold selected. rewrite cleanLockedOrMissing_eq, elem_of_app. left.
    apply list_elem_of_filter. split.
    - unfold cleanOrLocked. rewrite Hlocked. apply orb_true_r.
    - apply (elem_of_viewArray_wf dbNames _ d Hwf). by exists n. }
  assert (Hrejected : bulkCreateOrUpdate written (rewrite_listener n (store w))
            = ((λ x, ItemError (target x) "conflict") <$> written,
               rewrite_listener n (store w))).
  { apply bulkCreateOrUpdate_all_rejected.
    intros x (s & -> & Hs)%list_elem_of_fmap.
    destruct (written_spec E (now w) dbNames (store w) s Hwf Hs)
      as (_ & Hname & _ & _ & Hrev & _).
    rewrite (written_target E (now w) dbNames (store w) s Hwf Hs), Hrev.
    rewrite (Hall _ Hname).
    rewrite (rewrite_listener_eq n (store w) d Hwf Hd).
    unfold stored_rev. rewrite Hd, lookup_insert_eq. cbn [from_option].
    rewrite field_insert, decide_True by done.
    intros Heq. by apply (next_rev_ne (field d "_rev")). }
  pose proof (λ names, attempt_names_spec E (rewrite_listener n) dbNames names w)
    as Hnames.
  rewrite _attemptToDirtyIfCleanOrLocked_eq in *. cbv zeta in *.
  fold selected written in Hnames |- *. rewrite Hrejected in *. cbn [fst snd] in *.
  rewrite bool_decide_eq_true_2 in *
    by (destruct selected; [by apply elem_of_nil in Hsel | simpl; lia]).
  destruct (collect_conflicts_returns written
              ((λ x, ItemError (target x) "conflict") <$> written) 0 [])
    as [names Hrun]; [by rewrite length_fmap |].
  rewrite Hrun in *.
  destruct (Hnames names eq_refl) as [_ Hsub].
  destruct (collect_conflicts_spec _ _ _ _ _ Hrun (NoDup_nil_2)) as [_ Hin].
  destruct names as [| name names].
  - exfalso. destruct written as [| x written'] eqn:Hw.
    + subst written. apply fmap_nil_inv in Hw.
      rewrite Hw in Hsel. by apply elem_of_nil in Hsel.
    + apply (elem_of_nil (db_key x)). apply Hin. right.
      by exists 0%nat, x, (ItemError (target x) "conflict").
  - exists name, names. split; [done |].
    intros m Hm. by apply Hall, Hsub.
Qed.

Lemma contended_run E n k : ∀ dbNames w d,
  listener_store (store w) →
  store w !! key_of n = Some d →
  truthy (field d "locked_at") = true →
  dbNames ≠ [] → (∀ m, m ∈ dbNames → m = n) →
  (dirtyIfCleanOrLocked E k (replicate k (rewrite_listener n)) dbNames w).1
  = Return None.
Proof.
  induction k as [| k IH]; intros dbNames w d Hwf Hd Hlocked Hne Hall; [done |].
  cbn [replicate dirtyIfCleanOrLocked hd tl]. unfold bind.
  destruct (contended_attempt E n dbNames w d Hwf Hd Hlocked Hne Hall)
    as (name & names & -> & Hall').
  apply (IH _ _ (<["_rev" := next_rev (field d "_rev")]> d)).
  - apply (rewrite_listener_keeps n _ Hwf).
  - cbn [store with_store]. rewrite (rewrite_listener_eq n (store w) d Hwf Hd).
    apply lookup_insert_eq.
  - by rewrite field_insert, decide_False.
  - done.
  - done.
Qed.

(** X18: contention keeps the recursion going.  On a store of listeners
    where the listener of [n] is locked, as long as another process rewrites
    that record between the read and the write of every attempt, every bulk
    write for [n] is rejected and [dirtyIfCleanOrLocked] calls itself again:
    [k] such attempts use up [k] rounds without returning. *)
Theorem claim_does_not_return_under_contention
    (E : Collab) (k : nat) (n : string) (w : World) (d : Doc) :
  listener_store (store w) →
  store w !! String.append "spiegel_cl_" n = Some d →
  truthy (field d "locked_at") = true →
  (dirtyIfCleanOrLocked E k (replicate k (rewrite_listener n)) [n] w).1
  = Return None.
Proof.
  intros Hwf Hd Hlocked.
  apply (contended_run E n k [n] w d); [done | done | done | done |].
  by intros m ->%list_elem_of_singleton.
Qed.

(** The locked listener of [a], rewritten five times. *)
Lemma claim_does_not_return_under_contention_witness :
  let E := Sample.collab Sample.all_succeed 3 id in
  let locked := <["locked_at" := JStr "T900"]> Sample2.clean_a in
  let w := mkWorld 1000 (<["spiegel_cl_a" := locked]> ∅) [] [] [] in
  (dirtyIfCleanOrLocked E 5 (replicate 5 (rewrite_listener "a")) ["a"] w).1
  = Return None.
Proof.
  intros E locked w.
  apply (claim_does_not_return_under_contention E 5 "a" w locked).
  - apply (insert_listener_store locked ∅ "a"); [| done | done | done].
    split; intros *; by rewrite lookup_empty.
  - reflexivity.
  - reflexivity.
Defined.

(** ** Failures are not swallowed *)

(** X19: a failed outbound operation is always reported.  When the page is
    fetched and every dispatch hands off, the rejection the join observes is
    handed to [_onError] by the time [_processBatchOfChangesLogError] is
    done, whatever its class and whether the method then returns or throws:
    once when it is an API-request failure or a [DatabaseNotFoundError],
    twice otherwise.  The only other report is the [RangeError] of a retry
    that could not be scheduled because the delay gave no valid date. *)
Theorem join_failure_is_always_reported
    (E : Collab) (listener : Doc) (page : Page) (tick : nat) (err : Err)
    (w : World) :
  fetched E listener = inr page →
  dispatches_succeed E (field listener "db_name") (results page) →
  Promise_all (pushed_by E (field listener "db_name") (results page))
    = FirstRejected tick err →
  reported (_processBatchOfChangesLogError E listener w).2
  = reported w
    ++ (if decide (err_class err = PlainError) then [err; err] else [err])
    ++ (if decide (err_class err = ApiRequestError
                   ∧ hasReachedRetryLimit E (retries_of listener) = false
                   ∧ date_after (now w) (getDelaySecs E (retries_of listener)) = None)
        then [RangeError] else []).
Proof.
  intros Hfetch Hok Hjoin.
  rewrite _processBatchOfChangesLogError_eq.
  rewrite (_processBatchOfChanges_eq E listener page w Hfetch).
  rewrite (_processChanges_eq E listener page w Hok).
  rewrite _waitForRequests_eq, Hjoin. cbv zeta.
  destruct (decide (err_class err = ApiRequestError)) as [Hapi | Hapi].
  - rewrite _scheduleRetry_eq. cbv zeta.
    rewrite (decide_False (P := err_class err = PlainError)) by (by rewrite Hapi).
    cbn [now with_reported joined observe with_store].
    destruct (hasReachedRetryLimit E (retries_of listener)).
    + rewrite decide_False by (by intros (_ & ? & _)).
      rewrite app_nil_r.
      match goal with
      | |- context [truthy (field ?l "dirty_at")] =>
          destruct (truthy (field l "dirty_at"))
      end; done.
    + destruct (date_after (now w) (getDelaySecs E (retries_of listener)))
        as [v |] eqn:Hdate.
      * rewrite decide_False by (by intros (_ & _ & ?)).
        rewrite app_nil_r.
        match goal with
        | |- context [truthy (field ?l "dirty_at")] =>
            destruct (truthy (field l "dirty_at"))
        end; done.
      * rewrite (decide_True (P := _ ∧ _)) by (by split_and!).
        cbn. symmetry. apply (app_assoc (reported w) [err] [RangeError]).
  - rewrite (decide_False (P := _ ∧ _)) by (by intros (? & _)).
    rewrite app_nil_r.
    destruct (decide (err_class err = DatabaseNotFoundError)) as [Hnf | Hnf].
    + rewrite decide_False by (by rewrite Hnf). done.
    + rewrite decide_True by (by destruct (err_class err)).
      cbn. by rewrite <- app_assoc.
Qed.

(** The failing request of the sample page. *)
Lemma join_failure_is_always_reported_witness :
  let E := Sample.collab Sample.second_request_fails 3 id in
  let listener := Sample.listener 0 in
  reported (_processBatchOfChangesLogError E listener (Sample.world listener)).2
  = [Sample.apiError].
Proof.
  intros E listener.
  apply (join_failure_is_always_reported E listener Sample.page 1
           Sample.apiError (Sample.world listener)).
  - reflexivity.
  - intros c _. unfold E. simpl. unfold Sample.second_request_fails.
    by case_decide.
  - reflexivity.
Defined.

(** ** The claim protocol: from the fetch to the store *)

Lemma fetched_record keys (st : Store) l :
  listener_store st → l ∈ viewArray keys st →
  db_key l ∈ keys
  ∧ st !! key_of (db_key l) = Some l
  ∧ target l = key_of (db_key l).
Proof.
  intros Hwf (k & Hk & Hl)%elem_of_viewArray_wf; [| done].
  pose proof (id_listener st Hwf k l Hl) as Hem.
  rewrite (emitted_under_db_key k l Hem). split_and!; [done.. |].
  unfold target. by rewrite (filed_under_id st Hwf _ _ Hl).
Qed.

Lemma no_record_no_fetched keys (st : Store) n :
  listener_store st → n ∈ keys →
  (∀ l, l ∈ viewArray keys st → db_key l ≠ n) ↔ st !! key_of n = None.
Proof.
  intros Hwf Hn. split.
  - intros Hno. destruct (st !! key_of n) as [d |] eqn:Hd; [| done].
    exfalso. apply (Hno d).
    + apply elem_of_viewArray_wf; [done |]. by exists n.
    + apply emitted_under_db_key. by apply (id_listener st Hwf).
  - intros Hnone l Hl Hkey.
    destruct (fetched_record keys st l Hwf Hl) as (_ & Hat & _).
    rewrite Hkey in Hat. congruence.
Qed.

(** C5: which records the claim protocol dirties, from the fetch to the
    store.  On a store of listeners and for names of databases, the records
    fetched are the listeners of the requested names.
    [_getCleanLockedOrMissing] returns, in the order fetched, exactly those
    of them that are not dirty or that are locked, and behind them one fresh
    document for each requested name without a record, each name once.
    [_dirtyOrCreate] sends these documents, made dirty, to the store: a
    record that is dirty and not locked is not among them and is in the store
    afterwards as it was; a record that is selected is dirty afterwards and
    otherwise as it was, up to [updated_at] and the revision; and every name
    without a record has one afterwards, with [dirty = true], the id
    [spiegel_cl_] + name, and no field beyond those the method sets and the
    revision. *)
Theorem claim_selects_clean_or_locked_and_missing
    (E : Collab) (dbNames : list string) (w : World) :
  Forall (λ n, plain_name n = true) dbNames →
  listener_store (store w) →
  let records := viewArray dbNames (store w) in
  let missing := still_missing (flip dbNames) records in
  let selected :=
    filter (λ l, cleanOrLocked l = true) records ++ (missing_doc <$> missing) in
  let written := dirtyOrCreate_one E (now w) <$> selected in
  let after := store (_dirtyOrCreate E selected w).2 in
  (∀ l, l ∈ records ↔ ∃ n, n ∈ dbNames ∧ store w !! key_of n = Some l)
  ∧ _getCleanLockedOrMissing dbNames w = (Return selected, w)
  ∧ (∀ l, l ∈ records →
       (l ∈ selected
        ↔ truthy (field l "dirty") = false ∨ truthy (field l "locked_at") = true))
  ∧ NoDup missing
  ∧ (∀ n, n ∈ missing ↔ n ∈ dbNames ∧ store w !! key_of n = None)
  ∧ (_dirtyOrCreate E selected w).1
    = Return (written, (bulkCreateOrUpdate written (store w)).1)
  ∧ after = (bulkCreateOrUpdate written (store w)).2
  ∧ (∀ l, l ∈ records →
       truthy (field l "dirty") = true → truthy (field l "locked_at") = false →
       (l ∉ selected) ∧ after !! target l = Some l)
  ∧ (∀ l, l ∈ records → l ∈ selected →
       ∃ d, after !! target l = Some d
            ∧ truthy (field d "dirty") = true
            ∧ ∀ f, ¬ claim_field f → d !! f = l !! f)
  ∧ (∀ n, n ∈ dbNames → store w !! key_of n = None →
       let fresh := dirtyOrCreate_one E (now w) (missing_doc n) in
       fresh ∈ written
       ∧ field fresh "_id" = JStr (key_of n)
       ∧ field fresh "db_name" = JStr n
       ∧ field fresh "dirty" = JBool true
       ∧ field fresh "type" = JStr "change_listener"
       ∧ field fresh "updated_at" = JStr (toISOString E (now w))
       ∧ dom fresh = {[ "_id"; "db_name"; "dirty"; "type"; "updated_at" ]}
       ∧ ∃ d, after !! key_of n = Some d
              ∧ ∀ f, f ≠ "_rev" → d !! f = fresh !! f).
Proof.
  intros _ Hwf records missing selected written after.
  assert (Hsel : cleanLockedOrMissing dbNames records = selected)
    by apply cleanLockedOrMissing_eq.
  destruct (still_missing_spec records (flip dbNames) (NoDup_flip dbNames))
    as [Hnd Hin]. fold missing in Hnd, Hin.
  assert (Hmissing : ∀ n, n ∈ missing ↔ n ∈ dbNames ∧ store w !! key_of n = None).
  { intros n. rewrite Hin, elem_of_flip. split.
    - intros [Hn Hno]. split; [done |].
      by apply (no_record_no_fetched dbNames (store w) n Hwf Hn).
    - intros [Hn Hnone]. split; [done |].
      by apply (no_record_no_fetched dbNames (store w) n Hwf Hn). }
  assert (Hiff : ∀ l, l ∈ records → l ∈ selected ↔ cleanOrLocked l = true).
  { intros l Hl. subst selected.
    rewrite elem_of_app, list_elem_of_filter, list_elem_of_fmap.
    split; [| tauto].
    intros [[? _] | (n & -> & _)]; [done | apply cleanOrLocked_missing_doc]. }
  assert (Hafter : after = (bulkCreateOrUpdate written (store w)).2).
  { subst after. by rewrite _dirtyOrCreate_eq. }
  assert (Hwritten : ∀ x, x ∈ written →
            ∃ s, s ∈ selected ∧ x = dirtyOrCreate_one E (now w) s
                 ∧ target x = key_of (db_key s)).
  { intros x (s & -> & Hs)%list_elem_of_fmap. exists s. split_and!; [done.. |].
    apply (written_target E (now w) dbNames (store w) s Hwf).
    fold records. by rewrite Hsel. }
  split_and!.
  - intros l. by apply elem_of_viewArray_wf.
  - unfold _getCleanLockedOrMissing, _getByDBNames, bind, get_world, ret.
    fold records. by rewrite Hsel.
  - intros l Hl. rewrite (Hiff l Hl). unfold cleanOrLocked.
    by rewrite orb_true_iff, negb_true_iff.
  - done.
  - done.
  - by rewrite _dirtyOrCreate_eq.
  - done.
  - intros l Hl Hdirty Hlocked.
    assert (Hnot : l ∉ selected).
    { rewrite (Hiff l Hl). unfold cleanOrLocked. by rewrite Hdirty, Hlocked. }
    split; [done |].
    destruct (fetched_record dbNames (store w) l Hwf Hl) as (Hk & Hat & Htarget).
    rewrite Hafter, bulkCreateOrUpdate_frame; [by rewrite Htarget |].
    intros x (s & Hs & -> & Htx)%Hwritten. fold (target (dirtyOrCreate_one E (now w) s)).
    rewrite Htx, Htarget. intros Heq%key_of_inj.
    subst selected. apply elem_of_app in Hs as [Hs | Hs].
    + apply list_elem_of_filter in Hs as [Hclean Hs].
      destruct (fetched_record dbNames (store w) s Hwf Hs) as (_ & Hats & _).
      rewrite Heq, Hat in Hats. injection Hats as ->.
      apply Hnot. apply elem_of_app. left. by apply list_elem_of_filter.
    + apply list_elem_of_fmap in Hs as (m & -> & Hm).
      apply Hin in Hm as [_ Hno]. by apply (Hno l).
  - intros l Hl Hs.
    destruct (fetched_record dbNames (store w) l Hwf Hl) as (Hk & Hat & Htarget).
    rewrite Hafter, Htarget.
    apply (bulkCreateOrUpdate_writes
             (λ d, truthy (field d "dirty") = true
                   ∧ ∀ f, ¬ claim_field f → d !! f = l !! f)).
    + intros x r Hx Htx.
      destruct (written_for_name E (now w) dbNames (store w) x (db_key l) r Hwf)
        as (_ & Hd & _ & Hframe); [| done |].
      { fold records. by rewrite Hsel. }
      split; [done |]. by apply Hframe.
    + intros x Hx Htx.
      destruct (written_for_name E (now w) dbNames (store w) x (db_key l) JNull Hwf)
        as (Hrev & _); [| done | done].
      fold records. by rewrite Hsel.
    + exists (dirtyOrCreate_one E (now w) l). split.
      * apply list_elem_of_fmap. by exists l.
      * rewrite <- Htarget.
        destruct (Hwritten (dirtyOrCreate_one E (now w) l)) as (s & _ & _ & Hts).
        { apply list_elem_of_fmap. by exists l. }
        rewrite Htarget.
        apply (written_target E (now w) dbNames (store w) l Hwf).
        fold records. by rewrite Hsel.
  - intros n Hn Hnone fresh.
    assert (Hnm : n ∈ missing) by (by apply Hmissing).
    assert (Hfresh : fresh ∈ written).
    { apply list_elem_of_fmap. exists (missing_doc n). split; [done |].
      subst selected. rewrite elem_of_app, list_elem_of_fmap. right. by exists n. }
    split; [done |].
    subst fresh. rewrite dirtyOrCreate_one_missing.
    split_and!; [done.. |].
    rewrite <- dirtyOrCreate_one_missing. set (fresh := dirtyOrCreate_one _ _ _).
    rewrite Hafter.
    apply (bulkCreateOrUpdate_writes (λ d, ∀ f, f ≠ "_rev" → d !! f = fresh !! f)).
    + intros x r (s & Hs & -> & Htx)%Hwritten Htarget f Hf.
      rewrite Htx in Htarget. apply key_of_inj in Htarget.
      rewrite lookup_insert_ne by done.
      subst selected. apply elem_of_app in Hs as [Hs | Hs].
      * apply list_elem_of_filter in Hs as [_ Hs].
        destruct (fetched_record dbNames (store w) s Hwf Hs) as (_ & Hats & _).
        rewrite Htarget in Hats. congruence.
      * apply list_elem_of_fmap in Hs as (m & -> & Hm).
        change (db_key (missing_doc m)) with m in Htarget. by subst m.
    + intros x Hx Htx.
      destruct (written_for_name E (now w) dbNames (store w) x n JNull Hwf)
        as (Hrev & _); [| done | done].
      fold records. by rewrite Hsel.
    + exists fresh. split; [done |]. subst fresh.
      by rewrite dirtyOrCreate_one_missing.
Qed.

Lemma board_is_listener_store : listener_store Sample2.board.
Proof.
  apply (insert_listener_store Sample2.locked_c _ "c"); [| done..].
  apply (insert_listener_store Sample2.queued_b _ "b"); [| done..].
  apply shelf_is_listener_store.
Qed.

(** A claim for [a], [b], [c] and [d] on a store where [a] is clean, [b] is
    dirty and not locked, [c] is dirty and locked and [d] has no record: [a],
    [c] and a fresh document for [d] are selected, the record of [b] is left
    as it is, and [d] gets a dirty record. *)
Lemma claim_selects_clean_or_locked_and_missing_witness :
  let E := Sample.collab Sample.all_succeed 3 id in
  let w := mkWorld 1000 Sample2.board [] [] [] in
  let selected := [Sample2.clean_a; Sample2.locked_c; missing_doc "d"] in
  _getCleanLockedOrMissing ["a"; "b"; "c"; "d"] w = (Return selected, w)
  ∧ store (_dirtyOrCreate E selected w).2 !! "spiegel_cl_b" = Some Sample2.queued_b
  ∧ ∃ d, store (_dirtyOrCreate E selected w).2 !! "spiegel_cl_d" = Some d
         ∧ field d "dirty" = JBool true.
Proof.
  intros E w selected.
  assert (Hsel : filter (λ l, cleanOrLocked l = true)
                   (viewArray ["a"; "b"; "c"; "d"] (store w))
                 ++ (missing_doc
                       <$> still_missing (flip ["a"; "b"; "c"; "d"])
                             (viewArray ["a"; "b"; "c"; "d"] (store w)))
                 = selected) by (by vm_compute).
  destruct (claim_selects_clean_or_locked_and_missing E ["a"; "b"; "c"; "d"] w)
    as (_ & Hget & _ & _ & _ & _ & _ & Hskip & _ & Hnew).
  - by repeat constructor.
  - exact board_is_listener_store.
  - rewrite Hsel in Hget, Hskip, Hnew. split_and!.
    + exact Hget.
    + apply (Hskip Sample2.queued_b); [| reflexivity | reflexivity].
      vm_compute. apply elem_of_cons. right. apply elem_of_cons. by left.
    + destruct (Hnew "d") as (_ & _ & _ & _ & _ & _ & _ & d & Hd & Hsame).
      * apply elem_of_cons. right. apply elem_of_cons. right.
        apply elem_of_cons. right. apply elem_of_cons. by left.
      * reflexivity.
      * exists d. split; [exact Hd |].
        unfold field. by rewrite (Hsame "dirty").
Defined.
